(** * Tech-stack voting and selection service of chingu-dashboard-be

    A shallow embedding of [TechsService] (tech-stack voting, proposal and
    selection) and of [GlobalService.responseDtoToArray], together with the
    properties of the specification that concern them.

    The storage collaborator (the Prisma client) is modelled as a record of
    tables; every awaited storage call is one action of a small
    state-and-exception monad. *)

From Stdlib Require Import ZArith List String Bool Lia DecimalString.
Import ListNotations.
Open Scope string_scope.
Open Scope Z_scope.

Set Implicit Arguments.

(** ** JavaScript values and objects *)

Module Js.

(** The values a form-response field can hold.  Numbers are the integers
    the forms use. *)
Inductive Value :=
| Undefined
| Null
| Bool (b : bool)
| Number (n : Z)
| Str (s : string).

(** JavaScript truthiness, as used by [c ? a : b] and [!x]. *)
Definition truthy (v : Value) : bool :=
  match v with
  | Undefined | Null => false
  | Bool b => b
  | Number n => negb (n =? 0)
  | Str s => negb (s =? EmptyString)%string
  end.

(** An object is its own properties in insertion order. *)
Definition Object := list (string * Value).

Definition get (o : Object) (k : string) : Value :=
  match find (fun kv => (fst kv =? k)%string) o with
  | Some kv => snd kv
  | None => Undefined
  end.

(** Assignment of one property: an existing key keeps its position. *)
Fixpoint set (o : Object) (k : string) (v : Value) : Object :=
  match o with
  | [] => [(k, v)]
  | own :: rest =>
      if (fst own =? k)%string then (k, v) :: rest else own :: set rest k v
  end.

(** [{ ...target, ...src }]: the properties of [src] assigned in order. *)
Definition spread (target src : Object) : Object :=
  fold_left (fun o kv => set o (fst kv) (snd kv)) src target.

Definition keys (o : Object) : list string := map fst o.

(** Decimal rendering of an integer inside a template string. *)
Definition show (n : Z) : string := NilZero.string_of_int (Z.to_int n).

End Js.

(** ** Exceptions and results *)

Inductive Exception :=
| NotFoundException (message : string)
| BadRequestException (message : string)
| ConflictException (message : string)
| PrismaClientKnownRequestError (code : string) (cause : string)
| TypeError (message : string).

Inductive Result (A : Type) :=
| Ok (a : A)
| Throw (e : Exception).
Arguments Ok {A} a.
Arguments Throw {A} e.

(** [e.code === c]: only storage errors carry a code. *)
Definition has_code (e : Exception) (c : string) : bool :=
  match e with
  | PrismaClientKnownRequestError code _ => (code =? c)%string
  | _ => false
  end.

(** [e.meta.cause] of a storage error. *)
Definition meta_cause (e : Exception) : string :=
  match e with
  | PrismaClientKnownRequestError _ cause => cause
  | _ => EmptyString
  end.

(** ** The store *)

Record VoyageTeam := { vt_id : Z }.

Record User := {
  user_id : string;
  user_firstName : string;
  user_lastName : string;
  user_avatar : string
}.

Record VoyageTeamMember := {
  vtm_id : Z;
  vtm_userId : string;
  vtm_voyageTeamId : Z
}.

Record TechStackCategory := {
  tsc_id : Z;
  tsc_name : string;
  tsc_description : string
}.

Record TeamTechStackItem := {
  tti_id : Z;
  tti_name : string;
  tti_categoryId : Z;
  tti_voyageTeamId : Z;
  tti_isSelected : bool
}.

Record TeamTechStackItemVote := {
  ttv_id : Z;
  ttv_teamTechId : Z;
  ttv_teamMemberId : Z;
  ttv_createdAt : Z;
  ttv_updatedAt : Z
}.

(** What deleting a tech item does to the votes that reference it. *)
Inductive ReferentialAction := Cascade | Restrict.

Record Store := {
  voyageTeam : list VoyageTeam;
  user : list User;
  voyageTeamMember : list VoyageTeamMember;
  techStackCategory : list TechStackCategory;
  teamTechStackItem : list TeamTechStackItem;
  teamTechStackItemVote : list TeamTechStackItemVote;
  itemSeq : Z;
  voteSeq : Z
}.

Definition with_items (s : Store) (items : list TeamTechStackItem) (seq : Z) : Store :=
  {| voyageTeam := voyageTeam s;
     user := user s;
     voyageTeamMember := voyageTeamMember s;
     techStackCategory := techStackCategory s;
     teamTechStackItem := items;
     teamTechStackItemVote := teamTechStackItemVote s;
     itemSeq := seq;
     voteSeq := voteSeq s |}.

Definition with_votes (s : Store) (votes : list TeamTechStackItemVote) (seq : Z) : Store :=
  {| voyageTeam := voyageTeam s;
     user := user s;
     voyageTeamMember := voyageTeamMember s;
     techStackCategory := techStackCategory s;
     teamTechStackItem := teamTechStackItem s;
     teamTechStackItemVote := votes;
     itemSeq := itemSeq s;
     voteSeq := seq |}.

(** ** Asynchronous actions over the store *)

Definition Async (A : Type) : Type := Store -> Store * Result A.

Definition ret {A} (a : A) : Async A := fun s => (s, Ok a).

Definition throw {A} (e : Exception) : Async A := fun s => (s, Throw e).

(** [await m] followed by the rest of the function body. *)
Definition bind {A B} (m : Async A) (k : A -> Async B) : Async B :=
  fun s =>
    match m s with
    | (s', Ok a) => k a s'
    | (s', Throw e) => (s', Throw e)
    end.

Notation "x <- m ;; k" := (bind m (fun x => k))
  (at level 61, m at next level, right associativity).
Notation "m ;;; k" := (bind m (fun _ => k))
  (at level 61, right associativity).

(** [try { body } catch (e) { handler e }]: writes made before the throw stay. *)
Definition try_catch {A} (body : Async A) (handler : Exception -> Async A) : Async A :=
  fun s =>
    match body s with
    | (s', Ok a) => (s', Ok a)
    | (s', Throw e) => handler e s'
    end.

(** An async function called without [await]: it runs, but the caller never
    observes how its promise settles. *)
Definition unawaited {A} (m : Async A) : Async unit :=
  fun s => (fst (m s), Ok tt).

(** A pure read of the current store. *)
Definition query {A} (f : Store -> A) : Async A := fun s => (s, Ok (f s)).

(** ** Storage primitives

    Modelled from the spec: the Prisma schema is not part of the sources.  The
    store is a transactional relational store with generated identifiers, a
    unique key on votes (tech item, member), a unique key on tech items
    (name, team, category), references from votes to items and members and
    from items to teams and categories, signalling P2002 on a uniqueness
    violation, P2003 on a broken reference and P2025 on a missing record. *)

Module Prisma.

Definition P2002 {A} : Async A :=
  throw (PrismaClientKnownRequestError "P2002" "Unique constraint failed").
Definition P2003 {A} : Async A :=
  throw (PrismaClientKnownRequestError "P2003" "Foreign key constraint failed").
Definition P2025 {A} (cause : string) : Async A :=
  throw (PrismaClientKnownRequestError "P2025" cause).

Definition is_team (id : Z) (t : VoyageTeam) : bool := vt_id t =? id.
Definition is_member (id : Z) (m : VoyageTeamMember) : bool := vtm_id m =? id.
Definition is_membership (uuid : string) (teamId : Z) (m : VoyageTeamMember) : bool :=
  (vtm_userId m =? uuid)%string && (vtm_voyageTeamId m =? teamId).
Definition is_category (id : Z) (c : TechStackCategory) : bool := tsc_id c =? id.
Definition is_item (id : Z) (i : TeamTechStackItem) : bool := tti_id i =? id.
Definition same_tech (name : string) (teamId categoryId : Z)
           (i : TeamTechStackItem) : bool :=
  (tti_name i =? name)%string && (tti_voyageTeamId i =? teamId)
  && (tti_categoryId i =? categoryId).
Definition votes_for (teamTechId : Z) (v : TeamTechStackItemVote) : bool :=
  ttv_teamTechId v =? teamTechId.
Definition is_vote (teamTechId teamMemberId : Z) (v : TeamTechStackItemVote) : bool :=
  (ttv_teamTechId v =? teamTechId) && (ttv_teamMemberId v =? teamMemberId).

(** [voyageTeam.findUnique({ where: { id } })] *)
Definition voyageTeam_findUnique (id : Z) : Async (option VoyageTeam) :=
  query (fun s => find (is_team id) (voyageTeam s)).

(** [voyageTeamMember.findUnique({ where: { userVoyageId: { userId, voyageTeamId } } })] *)
Definition voyageTeamMember_findUnique (uuid : string) (teamId : Z)
  : Async (option VoyageTeamMember) :=
  query (fun s => find (is_membership uuid teamId) (voyageTeamMember s)).

(** [teamTechStackItem.findUnique({ where: { id } })] *)
Definition teamTechStackItem_findUnique (id : Z) : Async (option TeamTechStackItem) :=
  query (fun s => find (is_item id) (teamTechStackItem s)).

(** [teamTechStackItem.findUnique({ where: { id }, select: { teamTechStackItemVotes: true } })] *)
Definition teamTechStackItem_findUnique_votes (id : Z)
  : Async (option (list TeamTechStackItemVote)) :=
  query (fun s =>
           match find (is_item id) (teamTechStackItem s) with
           | Some _ => Some (filter (votes_for id) (teamTechStackItemVote s))
           | None => None
           end).

(** [teamTechStackItem.create({ data: { name, categoryId, voyageTeamId } })] *)
Definition teamTechStackItem_create (name : string) (categoryId teamId : Z)
  : Async TeamTechStackItem :=
  fun s =>
    if existsb (same_tech name teamId categoryId) (teamTechStackItem s) then P2002 s
    else if negb (existsb (is_team teamId) (voyageTeam s)) then P2003 s
    else if negb (existsb (is_category categoryId) (techStackCategory s)) then P2003 s
    else
      let item := {| tti_id := itemSeq s; tti_name := name;
                     tti_categoryId := categoryId; tti_voyageTeamId := teamId;
                     tti_isSelected := false |} in
      (with_items s (teamTechStackItem s ++ [item]) (itemSeq s + 1), Ok item).

(** [teamTechStackItem.update({ where: { id }, data: { isSelected } })] *)
Definition set_selected (id : Z) (isSelected : bool) (i : TeamTechStackItem)
  : TeamTechStackItem :=
  if is_item id i
  then {| tti_id := tti_id i; tti_name := tti_name i;
          tti_categoryId := tti_categoryId i;
          tti_voyageTeamId := tti_voyageTeamId i;
          tti_isSelected := isSelected |}
  else i.

Definition teamTechStackItem_update (id : Z) (isSelected : bool)
  : Async TeamTechStackItem :=
  fun s =>
    match find (is_item id) (teamTechStackItem s) with
    | None => P2025 "Record to update not found." s
    | Some i =>
        (with_items s (map (set_selected id isSelected) (teamTechStackItem s)) (itemSeq s),
         Ok (set_selected id isSelected i))
    end.

(** [teamTechStackItem.delete({ where: { id } })] *)
Definition teamTechStackItem_delete (onDelete : ReferentialAction) (id : Z)
  : Async TeamTechStackItem :=
  fun s =>
    match find (is_item id) (teamTechStackItem s) with
    | None => P2025 "Record to delete does not exist." s
    | Some i =>
        let items := filter (fun j => negb (is_item id j)) (teamTechStackItem s) in
        match onDelete with
        | Cascade =>
            let votes := filter (fun v => negb (votes_for id v)) (teamTechStackItemVote s) in
            (with_votes (with_items s items (itemSeq s)) votes (voteSeq s), Ok i)
        | Restrict =>
            if existsb (votes_for id) (teamTechStackItemVote s) then P2003 s
            else (with_items s items (itemSeq s), Ok i)
        end
    end.

(** [teamTechStackItemVote.create({ data: { teamTechId, teamMemberId } })];
    [now] is the creation time the store stamps on the record. *)
Definition teamTechStackItemVote_create (now : Z) (teamTechId teamMemberId : Z)
  : Async TeamTechStackItemVote :=
  fun s =>
    if existsb (is_vote teamTechId teamMemberId) (teamTechStackItemVote s) then P2002 s
    else if negb (existsb (is_item teamTechId) (teamTechStackItem s)) then P2003 s
    else if negb (existsb (is_member teamMemberId) (voyageTeamMember s)) then P2003 s
    else
      let vote := {| ttv_id := voteSeq s; ttv_teamTechId := teamTechId;
                     ttv_teamMemberId := teamMemberId;
                     ttv_createdAt := now; ttv_updatedAt := now |} in
      (with_votes s (teamTechStackItemVote s ++ [vote]) (voteSeq s + 1), Ok vote).

(** [teamTechStackItemVote.delete({ where: { userTeamStackVote: { teamTechId, teamMemberId } } })] *)
Definition teamTechStackItemVote_delete (teamTechId teamMemberId : Z)
  : Async TeamTechStackItemVote :=
  fun s =>
    match find (is_vote teamTechId teamMemberId) (teamTechStackItemVote s) with
    | None => P2025 "Record to delete does not exist." s
    | Some v =>
        (with_votes s
           (filter (fun w => negb (is_vote teamTechId teamMemberId w))
                   (teamTechStackItemVote s))
           (voteSeq s),
         Ok v)
    end.

(** [$transaction([...])]: the queued writes run in order; when one of them
    fails the store is left as it was and the error propagates. *)
Fixpoint sequence {A} (ms : list (Async A)) : Async (list A) :=
  match ms with
  | [] => ret []
  | m :: rest => a <- m ;; l <- sequence rest ;; ret (a :: l)
  end.

Definition transaction {A} (ms : list (Async A)) : Async (list A) :=
  fun s =>
    match sequence ms s with
    | (s', Ok l) => (s', Ok l)
    | (_, Throw e) => (s, Throw e)
    end.

End Prisma.

(** ** Requests and DTOs *)

Record Request := { userId : string }.

Record TechSelection := { techId : Z; isSelected : bool }.

Record TechCategorySelection := { categoryId : Z; techs : list TechSelection }.

Record UpdateTechSelectionsDto := { categories : list TechCategorySelection }.

Record CreateTeamTechDto := { techName : string; techCategoryId : Z }.

Record VoteResponse := {
  teamTechStackItemVoteId : Z;
  teamTechId : Z;
  teamMemberId : Z;
  createdAt : Z;
  updatedAt : Z
}.

Record MessageResponse := { message : string; statusCode : Z }.

(** The read model of the catalog. *)
Record VoterSummary := {
  voter_id : string;
  voter_firstName : string;
  voter_lastName : string;
  voter_avatar : string
}.

Record CatalogVoter := { member : option VoterSummary }.

Record CatalogVote := { votedBy : option CatalogVoter }.

Record CatalogItem := {
  ci_id : Z;
  ci_name : string;
  teamTechStackItemVotes : list CatalogVote
}.

Record CatalogCategory := {
  cc_id : Z;
  cc_name : string;
  cc_description : string;
  teamTechStackItems : list CatalogItem
}.

(** ** TechsService *)

Definition MAX_SELECTION_COUNT : Z := 3.

(** [if (!voyageMemberId) throw e]: a missing membership and the number 0 are
    both falsy; otherwise the identifier is used. *)
Definition require_id (voyageMemberId : option Z) (e : Exception) : Async Z :=
  match voyageMemberId with
  | Some m => if m =? 0 then throw e else ret m
  | None => throw e
  end.

Definition validateTeamId (teamId : Z) : Async unit :=
  voyageTeam <- Prisma.voyageTeam_findUnique teamId ;;
  match voyageTeam with
  | None => throw (NotFoundException
                     ("Team (id: " ++ Js.show teamId ++ ") doesn't exist."))
  | Some _ => ret tt
  end.

Definition findVoyageMemberId (req : Request) (teamId : Z) : Async (option Z) :=
  let uuid := userId req in
  voyageMember <- Prisma.voyageTeamMember_findUnique uuid teamId ;;
  ret (match voyageMember with
       | Some m => Some (vtm_id m)
       | None => None
       end).

(** The nested [select] of [techStackCategory.findMany]. *)
Definition select_voter (s : Store) (v : TeamTechStackItemVote) : CatalogVote :=
  {| votedBy :=
       match find (Prisma.is_member (ttv_teamMemberId v)) (voyageTeamMember s) with
       | None => None
       | Some m =>
           Some {| member :=
                     match find (fun u => (user_id u =? vtm_userId m)%string) (user s) with
                     | None => None
                     | Some u => Some {| voter_id := user_id u;
                                         voter_firstName := user_firstName u;
                                         voter_lastName := user_lastName u;
                                         voter_avatar := user_avatar u |}
                     end |}
       end |}.

Definition select_item (s : Store) (i : TeamTechStackItem) : CatalogItem :=
  {| ci_id := tti_id i;
     ci_name := tti_name i;
     teamTechStackItemVotes :=
       map (select_voter s)
           (filter (Prisma.votes_for (tti_id i)) (teamTechStackItemVote s)) |}.

Definition select_category (s : Store) (teamId : Z) (c : TechStackCategory)
  : CatalogCategory :=
  {| cc_id := tsc_id c;
     cc_name := tsc_name c;
     cc_description := tsc_description c;
     teamTechStackItems :=
       map (select_item s)
           (filter (fun i => (tti_categoryId i =? tsc_id c)
                             && (tti_voyageTeamId i =? teamId))
                   (teamTechStackItem s)) |}.

Definition techStackCategory_findMany (teamId : Z) : Async (list CatalogCategory) :=
  query (fun s => map (select_category s teamId) (techStackCategory s)).

(** [this.validateTeamId(teamId);] is called without [await]. *)
Definition getAllTechItemsByTeamId (teamId : Z) : Async (list CatalogCategory) :=
  unawaited (validateTeamId teamId) ;;;
  techStackCategory_findMany teamId.

(** [category.techs.reduce((acc, tech) => acc + (tech.isSelected ? 1 : 0), 0)] *)
Definition selectCount (category : TechCategorySelection) : Z :=
  fold_left (fun acc tech => acc + (if isSelected tech then 1 else 0))
            (techs category) 0.

(** The first [categories.forEach]: the callback throws at the first category
    over the cap. *)
Fixpoint validateSelectionCount (categories : list TechCategorySelection) : Async unit :=
  match categories with
  | [] => ret tt
  | category :: rest =>
      if MAX_SELECTION_COUNT <? selectCount category
      then throw (BadRequestException
                    ("Only " ++ Js.show MAX_SELECTION_COUNT
                             ++ " selections allowed per category"))
      else validateSelectionCount rest
  end.

(** The second [categories.forEach]: every tech pushed in order. *)
Definition techsArray (categories : list TechCategorySelection) : list TechSelection :=
  flat_map techs categories.

Definition updateTechStackSelections (req : Request) (teamId : Z)
           (updateTechSelectionsDto : UpdateTechSelectionsDto)
  : Async (list TeamTechStackItem) :=
  let categories := categories updateTechSelectionsDto in
  validateSelectionCount categories ;;;
  voyageMemberId <- findVoyageMemberId req teamId ;;
  require_id voyageMemberId (BadRequestException "Invalid User or Team Id") ;;;
  Prisma.transaction
    (map (fun tech => Prisma.teamTechStackItem_update (techId tech) (isSelected tech))
         (techsArray categories)).

Definition addNewTeamTech (now : Z) (req : Request) (teamId : Z)
           (createTechVoteDto : CreateTeamTechDto) : Async VoteResponse :=
  voyageMemberId <- findVoyageMemberId req teamId ;;
  voyageMemberId <- require_id voyageMemberId
                      (BadRequestException "Invalid User or Team Id") ;;
  try_catch
    (newTeamTechItem <- Prisma.teamTechStackItem_create
                          (techName createTechVoteDto)
                          (techCategoryId createTechVoteDto) teamId ;;
     TeamTechItemFirstVote <- Prisma.teamTechStackItemVote_create now
                                (tti_id newTeamTechItem) voyageMemberId ;;
     ret {| teamTechStackItemVoteId := ttv_id TeamTechItemFirstVote;
            teamTechId := tti_id newTeamTechItem;
            teamMemberId := ttv_teamMemberId TeamTechItemFirstVote;
            createdAt := ttv_createdAt TeamTechItemFirstVote;
            updatedAt := ttv_updatedAt TeamTechItemFirstVote |})
    (fun e =>
       if has_code e "P2002"
       then throw (ConflictException
                     (techName createTechVoteDto
                        ++ " already exists in the available team tech stack."))
       else throw e).

(** The [catch] block of [addExistingTechVote]. *)
Definition addExistingTechVote_catch {A} (teamTechId : Z) (e : Exception) : Async A :=
  if has_code e "P2002"
  then throw (ConflictException
                ("User has already voted for techId:" ++ Js.show teamTechId))
  else throw e.

Definition addExistingTechVote (now : Z) (req : Request) (teamId teamTechId : Z)
  : Async VoteResponse :=
  teamTechItem <- Prisma.teamTechStackItem_findUnique teamTechId ;;
  match teamTechItem with
  | None => throw (BadRequestException "Team Tech Item not found")
  | Some _ =>
      voyageMemberId <- findVoyageMemberId req teamId ;;
      voyageMemberId <- require_id voyageMemberId (BadRequestException "Invalid User") ;;
      try_catch
        (teamMemberTechVote <- Prisma.teamTechStackItemVote_create now
                                 teamTechId voyageMemberId ;;
         ret {| teamTechStackItemVoteId := ttv_id teamMemberTechVote;
                teamTechId := teamTechId;
                teamMemberId := ttv_teamMemberId teamMemberTechVote;
                createdAt := ttv_createdAt teamMemberTechVote;
                updatedAt := ttv_updatedAt teamMemberTechVote |})
        (addExistingTechVote_catch teamTechId)
  end.

(** The [catch] block of [removeVote]. *)
Definition removeVote_catch {A} (e : Exception) : Async A :=
  if has_code e "P2025"
  then throw (NotFoundException (meta_cause e))
  else throw e.

Definition vote_and_item_deleted : MessageResponse :=
  {| message := "The vote and tech stack item were deleted"; statusCode := 200 |}.

Definition vote_deleted : MessageResponse :=
  {| message := "This vote was deleted"; statusCode := 200 |}.

Section RemoveVote.

(** The schema's referential action on the vote-to-item relation. *)
Variable onDelete : ReferentialAction.

Definition removeVote (req : Request) (teamId teamTechId : Z) : Async MessageResponse :=
  voyageMemberId <- findVoyageMemberId req teamId ;;
  voyageMemberId <- require_id voyageMemberId (BadRequestException "Invalid User") ;;
  try_catch
    (Prisma.teamTechStackItemVote_delete teamTechId voyageMemberId ;;;
     teamTechItem <- Prisma.teamTechStackItem_findUnique_votes teamTechId ;;
     match teamTechItem with
     | None =>
         throw (TypeError
                  "Cannot read properties of null (reading 'teamTechStackItemVotes')")
     | Some teamTechStackItemVotes =>
         if (Z.of_nat (List.length teamTechStackItemVotes) =? 0)
         then
           Prisma.teamTechStackItem_delete onDelete teamTechId ;;;
           ret {| message := "The vote and tech stack item were deleted";
                  statusCode := 200 |}
         else
           ret {| message := "This vote was deleted"; statusCode := 200 |}
     end)
    removeVote_catch.

End RemoveVote.

(** ** GlobalService.responseDtoToArray *)

(** A property of a form DTO: an array of response objects, or anything else. *)
Inductive DtoField :=
| FieldArray (items : list Js.Object)
| FieldValue (v : Js.Value).

(** The DTO's own enumerable properties in [for ... in] order. *)
Definition FormDto := list (string * DtoField).

Definition responseIndex : list string := ["response"; "responses"].

Definition includes (l : list string) (k : string) : bool :=
  existsb (fun x => (x =? k)%string) l.

(** [...(c ? { k: c } : { k: null })] *)
Definition or_null (v : Js.Object) (k : string) : Js.Object :=
  if Js.truthy (Js.get v k) then [(k, Js.get v k)] else [(k, Js.Null)].

(** The object literal pushed for one response [v]. *)
Definition responseEntry (v : Js.Object) : Js.Object :=
  Js.spread
    (Js.spread
       (Js.spread
          (Js.spread [("questionId", Js.get v "questionId")]
                     (or_null v "text"))
          (or_null v "numeric"))
       (or_null v "boolean"))
    (or_null v "optionChoiceId").

Fixpoint responseDtoToArray_from (responsesArray : list Js.Object) (responses : FormDto)
  : Result (list Js.Object) :=
  match responses with
  | [] => Ok responsesArray
  | (index, value) :: rest =>
      if includes responseIndex index
      then match value with
           | FieldArray vs =>
               responseDtoToArray_from (responsesArray ++ map responseEntry vs) rest
           | FieldValue _ =>
               Throw (TypeError "responses[index].forEach is not a function")
           end
      else responseDtoToArray_from responsesArray rest
  end.

Definition responseDtoToArray (responses : FormDto) : Result (list Js.Object) :=
  responseDtoToArray_from [] responses.

(** ** Requests in flight

    Each request is a task that suspends at every awaited storage call; between
    two suspension points of one task, any other task may run. *)

Inductive RemoveVoteTask :=
| RV_findMember
| RV_deleteVote (voyageMemberId : Z)
| RV_findItem
| RV_deleteItem
| RV_settled (r : Result MessageResponse).

Inductive AddVoteTask :=
| AV_findItem
| AV_findMember
| AV_createVote (voyageMemberId : Z)
| AV_settled (r : Result VoteResponse).

(** Runs one awaited call; a throw settles the task through [handler]. *)
Definition resume {T A} (settled : Result A -> T) (handler : Exception -> Async A)
           (m : Async T) (s : Store) : Store * T :=
  match m s with
  | (s', Ok t) => (s', t)
  | (s', Throw e) => let (s'', r) := handler e s' in (s'', settled r)
  end.

Section Tasks.

Variable onDelete : ReferentialAction.

Definition removeVote_step (req : Request) (teamId teamTechId : Z)
           (t : RemoveVoteTask) : Store -> Store * RemoveVoteTask :=
  match t with
  | RV_findMember =>
      resume RV_settled throw
        (voyageMemberId <- findVoyageMemberId req teamId ;;
         voyageMemberId <- require_id voyageMemberId (BadRequestException "Invalid User") ;;
         ret (RV_deleteVote voyageMemberId))
  | RV_deleteVote voyageMemberId =>
      resume RV_settled removeVote_catch
        (Prisma.teamTechStackItemVote_delete teamTechId voyageMemberId ;;;
         ret RV_findItem)
  | RV_findItem =>
      resume RV_settled removeVote_catch
        (teamTechItem <- Prisma.teamTechStackItem_findUnique_votes teamTechId ;;
         match teamTechItem with
         | None =>
             throw (TypeError
                      "Cannot read properties of null (reading 'teamTechStackItemVotes')")
         | Some teamTechStackItemVotes =>
             if (Z.of_nat (List.length teamTechStackItemVotes) =? 0)
             then ret RV_deleteItem
             else ret (RV_settled (Ok vote_deleted))
         end)
  | RV_deleteItem =>
      resume RV_settled removeVote_catch
        (Prisma.teamTechStackItem_delete onDelete teamTechId ;;;
         ret (RV_settled (Ok vote_and_item_deleted)))
  | RV_settled r => fun s => (s, RV_settled r)
  end.

Definition addExistingTechVote_step (now : Z) (req : Request) (teamId teamTechId : Z)
           (t : AddVoteTask) : Store -> Store * AddVoteTask :=
  match t with
  | AV_findItem =>
      resume AV_settled throw
        (teamTechItem <- Prisma.teamTechStackItem_findUnique teamTechId ;;
         match teamTechItem with
         | None => throw (BadRequestException "Team Tech Item not found")
         | Some _ => ret AV_findMember
         end)
  | AV_findMember =>
      resume AV_settled throw
        (voyageMemberId <- findVoyageMemberId req teamId ;;
         voyageMemberId <- require_id voyageMemberId (BadRequestException "Invalid User") ;;
         ret (AV_createVote voyageMemberId))
  | AV_createVote voyageMemberId =>
      resume AV_settled (addExistingTechVote_catch teamTechId)
        (teamMemberTechVote <- Prisma.teamTechStackItemVote_create now
                                 teamTechId voyageMemberId ;;
         ret (AV_settled
                (Ok {| teamTechStackItemVoteId := ttv_id teamMemberTechVote;
                       teamTechId := teamTechId;
                       teamMemberId := ttv_teamMemberId teamMemberTechVote;
                       createdAt := ttv_createdAt teamMemberTechVote;
                       updatedAt := ttv_updatedAt teamMemberTechVote |})))
  | AV_settled r => fun s => (s, AV_settled r)
  end.

(** A [removeVote] request and an [addExistingTechVote] request in flight
    against one store. *)
Record Race := {
  store : Store;
  remover : RemoveVoteTask;
  voter : AddVoteTask
}.

Inductive Turn := TurnRemove | TurnAdd.

Record RaceRequests := {
  rm_req : Request; rm_teamId : Z; rm_teamTechId : Z;
  add_now : Z; add_req : Request; add_teamId : Z; add_teamTechId : Z
}.

Definition race_step (q : RaceRequests) (c : Race) (t : Turn) : Race :=
  match t with
  | TurnRemove =>
      let (s', r) := removeVote_step (rm_req q) (rm_teamId q) (rm_teamTechId q)
                                     (remover c) (store c) in
      {| store := s'; remover := r; voter := voter c |}
  | TurnAdd =>
      let (s', a) := addExistingTechVote_step (add_now q) (add_req q) (add_teamId q)
                                              (add_teamTechId q) (voter c) (store c) in
      {| store := s'; remover := remover c; voter := a |}
  end.

Definition race_run (q : RaceRequests) (schedule : list Turn) (s : Store) : Race :=
  fold_left (race_step q) schedule
            {| store := s; remover := RV_findMember; voter := AV_findItem |}.

(** The two requests served one after the other. *)
Definition remove_then_add (q : RaceRequests) (s : Store) : Race :=
  let (s1, r) := removeVote onDelete (rm_req q) (rm_teamId q) (rm_teamTechId q) s in
  let (s2, a) := addExistingTechVote (add_now q) (add_req q) (add_teamId q)
                                     (add_teamTechId q) s1 in
  {| store := s2; remover := RV_settled r; voter := AV_settled a |}.

Definition add_then_remove (q : RaceRequests) (s : Store) : Race :=
  let (s1, a) := addExistingTechVote (add_now q) (add_req q) (add_teamId q)
                                     (add_teamTechId q) s in
  let (s2, r) := removeVote onDelete (rm_req q) (rm_teamId q) (rm_teamTechId q) s1 in
  {| store := s2; remover := RV_settled r; voter := AV_settled a |}.

End Tasks.

(** ** Histories of the subsystem *)

Inductive Operation :=
| UpdateSelections (req : Request) (teamId : Z) (dto : UpdateTechSelectionsDto)
| ProposeTech (now : Z) (req : Request) (teamId : Z) (dto : CreateTeamTechDto)
| AddVote (now : Z) (req : Request) (teamId teamTechId : Z)
| RemoveVote (req : Request) (teamId teamTechId : Z).

(** The store an operation leaves behind, whether it returns or throws. *)
Definition perform (onDelete : ReferentialAction) (op : Operation) (s : Store) : Store :=
  match op with
  | UpdateSelections req teamId dto => fst (updateTechStackSelections req teamId dto s)
  | ProposeTech now req teamId dto => fst (addNewTeamTech now req teamId dto s)
  | AddVote now req teamId teamTechId =>
      fst (addExistingTechVote now req teamId teamTechId s)
  | RemoveVote req teamId teamTechId => fst (removeVote onDelete req teamId teamTechId s)
  end.

Inductive reachable (onDelete : ReferentialAction) (s0 : Store) : Store -> Prop :=
| reach_start : reachable onDelete s0 s0
| reach_step s op :
    reachable onDelete s0 s -> reachable onDelete s0 (perform onDelete op s).

(** ** Invariants of the store *)

Definition vote_key (v : TeamTechStackItemVote) : Z * Z :=
  (ttv_teamTechId v, ttv_teamMemberId v).

(** The tech item [id] has at least one vote. *)
Definition voted (s : Store) (id : Z) : Prop :=
  exists v, In v (teamTechStackItemVote s) /\ ttv_teamTechId v = id.

(** No tech item exists without a vote. *)
Definition no_orphan (s : Store) : Prop :=
  forall i, In i (teamTechStackItem s) -> voted s (tti_id i).

(** The number of votes of the tech item [id]. *)
Definition voteCount (s : Store) (id : Z) : nat :=
  List.length (filter (Prisma.votes_for id) (teamTechStackItemVote s)).

(** What the storage engine itself guarantees in every state: generated keys
    start at 1 and stay below their sequence, references resolve, and the
    unique key of votes holds. *)
Record integrity (s : Store) : Prop := {
  member_ids_positive :
    forall m, In m (voyageTeamMember s) -> 0 < vtm_id m;
  member_team_exists :
    forall m, In m (voyageTeamMember s) ->
              existsb (Prisma.is_team (vtm_voyageTeamId m)) (voyageTeam s) = true;
  item_ids_below_seq :
    forall i, In i (teamTechStackItem s) -> tti_id i < itemSeq s;
  vote_item_exists :
    forall v, In v (teamTechStackItemVote s) ->
              existsb (Prisma.is_item (ttv_teamTechId v)) (teamTechStackItem s) = true;
  vote_key_unique :
    NoDup (map vote_key (teamTechStackItemVote s))
}.

(** [m] leaves [P] standing however it settles. *)
Definition preserves {A} (P : Store -> Prop) (m : Async A) : Prop :=
  forall s s' r, P s -> m s = (s', r) -> P s'.

(** The value requested for [id] by the last entry of the batch that lists it. *)
Definition lastRequested (batch : list TechSelection) (id : Z) : option bool :=
  option_map isSelected (find (fun t => techId t =? id) (rev batch)).

(** The caller of [req] is a member of team [teamId] with membership [m]. *)
Definition resolves (s : Store) (req : Request) (teamId m : Z) : Prop :=
  findVoyageMemberId req teamId s = (s, Ok (Some m)).

(** ** Vocabulary of the properties *)

(** The keys of a flattened response, in the order the literal lists them. *)
Definition entryKeys : list string :=
  ["questionId"; "text"; "numeric"; "boolean"; "optionChoiceId"].

(** The optional fields of a response. *)
Definition nullableKeys : list string :=
  ["text"; "numeric"; "boolean"; "optionChoiceId"].

(** [v] is one of the responses listed under [response] or [responses]. *)
Definition given (responses : FormDto) (v : Js.Object) : Prop :=
  exists index vs,
    In (index, FieldArray vs) responses
    /\ includes responseIndex index = true
    /\ In v vs.

(** Both indexed properties, when present, hold arrays. *)
Definition well_typed (responses : FormDto) : Prop :=
  forall index value,
    In (index, value) responses -> includes responseIndex index = true ->
    exists vs, value = FieldArray vs.

(** Two responses agree up to falsy optional fields. *)
Definition same_up_to_falsy (v w : Js.Object) : Prop :=
  Js.get v "questionId" = Js.get w "questionId"
  /\ forall k, In k nullableKeys ->
               Js.get v k = Js.get w k
               \/ (Js.truthy (Js.get v k) = false /\ Js.truthy (Js.get w k) = false).

(** ** Example data

    A check-in form with three responses (a "no" answer, a zero and a text);
    a store in which team 1 has two members, Alice and Bob, while Carol
    belongs to no team. *)

Definition sample_form : FormDto :=
  [ ("voyageTeamMemberId", FieldValue (Js.Number 1));
    ("responses",
     FieldArray
       [ [("questionId", Js.Number 1); ("boolean", Js.Bool false)];
         [("questionId", Js.Number 2); ("numeric", Js.Number 0)];
         [("questionId", Js.Number 3); ("text", Js.Str "All good")] ]) ].

Definition alice : Request := {| userId := "uuid-alice" |}.
Definition bob : Request := {| userId := "uuid-bob" |}.
Definition carol : Request := {| userId := "uuid-carol" |}.

Definition seed : Store :=
  {| voyageTeam := [ {| vt_id := 1 |} ];
     user := [ {| user_id := "uuid-alice"; user_firstName := "Alice";
                  user_lastName := "A"; user_avatar := "a.png" |};
               {| user_id := "uuid-bob"; user_firstName := "Bob";
                  user_lastName := "B"; user_avatar := "b.png" |};
               {| user_id := "uuid-carol"; user_firstName := "Carol";
                  user_lastName := "C"; user_avatar := "c.png" |} ];
     voyageTeamMember :=
       [ {| vtm_id := 1; vtm_userId := "uuid-alice"; vtm_voyageTeamId := 1 |};
         {| vtm_id := 2; vtm_userId := "uuid-bob"; vtm_voyageTeamId := 1 |} ];
     techStackCategory :=
       [ {| tsc_id := 1; tsc_name := "Frontend"; tsc_description := "Frontend stack" |} ];
     teamTechStackItem := [];
     teamTechStackItemVote := [];
     itemSeq := 1;
     voteSeq := 1 |}.

(** Alice has proposed React (item 1, vote 1). *)
Definition one_vote : Store :=
  fst (addNewTeamTech 100 alice 1 {| techName := "React"; techCategoryId := 1 |} seed).

(** Bob has voted for React as well (vote 2). *)
Definition two_votes : Store :=
  fst (addExistingTechVote 200 bob 1 1 one_vote).

(** The message of the cap check, [MAX_SELECTION_COUNT] rendered. *)
Definition cap_message : string := "Only 3 selections allowed per category".

(** A request entry that selects tech [id]. *)
Definition pick (id : Z) : TechSelection := {| techId := id; isSelected := true |}.

Definition four_selected : UpdateTechSelectionsDto :=
  {| categories := [ {| categoryId := 1; techs := [pick 1; pick 2; pick 3; pick 4] |} ] |}.

Definition three_selected : UpdateTechSelectionsDto :=
  {| categories := [ {| categoryId := 1; techs := [pick 1; pick 2; pick 3] |} ] |}.

(** [n] resumptions of a task. *)
Fixpoint iterate {A} (n : nat) (f : A -> A) (a : A) : A :=
  match n with
  | O => a
  | S k => iterate k f (f a)
  end.

(** Case analysis on the outcome of the next storage call of the goal. *)
Ltac storage_call :=
  match goal with
  | |- context [findVoyageMemberId ?r ?t ?s] =>
      destruct (findVoyageMemberId r t s) as [? [[? |] | ?]]
  | |- context [Prisma.teamTechStackItemVote_delete ?i ?m ?s] =>
      destruct (Prisma.teamTechStackItemVote_delete i m s) as [? [? | ?]]
  | |- context [Prisma.teamTechStackItem_findUnique_votes ?i ?s] =>
      destruct (Prisma.teamTechStackItem_findUnique_votes i s) as [? [[? |] | ?]]
  | |- context [Prisma.teamTechStackItem_delete ?p ?i ?s] =>
      destruct (Prisma.teamTechStackItem_delete p i s) as [? [? | ?]]
  | |- context [Prisma.teamTechStackItem_findUnique ?i ?s] =>
      destruct (Prisma.teamTechStackItem_findUnique i s) as [? [[? |] | ?]]
  | |- context [Prisma.teamTechStackItemVote_create ?n ?i ?m ?s] =>
      destruct (Prisma.teamTechStackItemVote_create n i m s) as [? [? | ?]]
  | |- context [if ?b then _ else _] => destruct b
  end.

(** Runs a task and the service function side by side, call by call. *)
Ltac run_task :=
  repeat (cbn [iterate fst snd removeVote_step addExistingTechVote_step];
          unfold resume, bind, try_catch, ret, throw, require_id,
            removeVote_catch, addExistingTechVote_catch;
          try reflexivity; storage_call).

(** Alice removes her vote, the only one of item 1, while Bob votes for it. *)
Definition last_vote_race : RaceRequests :=
  {| rm_req := alice; rm_teamId := 1; rm_teamTechId := 1;
     add_now := 200; add_req := bob; add_teamId := 1; add_teamTechId := 1 |}.

(** Bob's request runs between Alice's read of the remaining votes and her
    deletion of the item. *)
Definition vote_between_read_and_delete : list Turn :=
  [TurnRemove; TurnRemove; TurnRemove; TurnAdd; TurnAdd; TurnAdd; TurnRemove].

(** The vote record acknowledged to Bob. *)
Definition bobs_vote : VoteResponse :=
  {| teamTechStackItemVoteId := 2; teamTechId := 1; teamMemberId := 2;
     createdAt := 200; updatedAt := 200 |}.

(** [m] never writes. *)
Definition readonly {A} (m : Async A) : Prop := forall s, fst (m s) = s.

(** The votes left once the vote of membership [m] for item [X] is deleted. *)
Definition remaining (s : Store) (X m : Z) : list TeamTechStackItemVote :=
  filter (fun w => negb (Prisma.is_vote X m w)) (teamTechStackItemVote s).

(** A tech with this name is already proposed for the team and category. *)
Definition proposed (s : Store) (name : string) (teamId categoryId : Z) : Prop :=
  exists i, In i (teamTechStackItem s)
            /\ tti_name i = name /\ tti_voyageTeamId i = teamId
            /\ tti_categoryId i = categoryId.

(** The item and the vote a proposal inserts. *)
Definition new_item (s : Store) (teamId : Z) (dto : CreateTeamTechDto) : TeamTechStackItem :=
  {| tti_id := itemSeq s; tti_name := techName dto;
     tti_categoryId := techCategoryId dto; tti_voyageTeamId := teamId;
     tti_isSelected := false |}.

Definition first_vote (s : Store) (now m : Z) : TeamTechStackItemVote :=
  {| ttv_id := voteSeq s; ttv_teamTechId := itemSeq s; ttv_teamMemberId := m;
     ttv_createdAt := now; ttv_updatedAt := now |}.

(** The store after a proposal by membership [m] went through. *)
Definition with_proposal (s : Store) (now teamId m : Z) (dto : CreateTeamTechDto) : Store :=
  with_votes
    (with_items s (teamTechStackItem s ++ [new_item s teamId dto]) (itemSeq s + 1))
    (teamTechStackItemVote s ++ [first_vote s now m]) (voteSeq s + 1).

(** Item [i] with its [isSelected] flag set to [b]. *)
Definition with_flag (i : TeamTechStackItem) (b : bool) : TeamTechStackItem :=
  {| tti_id := tti_id i; tti_name := tti_name i; tti_categoryId := tti_categoryId i;
     tti_voyageTeamId := tti_voyageTeamId i; tti_isSelected := b |}.

(** The queued updates applied one after the other to the item table. *)
Definition apply_batch (batch : list TechSelection) (items : list TeamTechStackItem)
  : list TeamTechStackItem :=
  fold_left (fun its t => map (Prisma.set_selected (techId t) (isSelected t)) its)
            batch items.

(** The flag of item [j] once the whole batch is applied. *)
Definition final_flag (batch : list TechSelection) (j : TeamTechStackItem) : bool :=
  match lastRequested batch (tti_id j) with
  | Some b => b
  | None => tti_isSelected j
  end.

(** The array of update calls handed to [$transaction]. *)
Definition queued (batch : list TechSelection) : list (Async TeamTechStackItem) :=
  map (fun tech => Prisma.teamTechStackItem_update (techId tech) (isSelected tech)) batch.

(** The claim as worded: every entry's item carries that entry's value. *)
Definition every_entry_as_requested (batch : list TechSelection) (s' : Store) : Prop :=
  forall t i, In t batch -> In i (teamTechStackItem s') ->
              tti_id i = techId t -> tti_isSelected i = isSelected t.

(** No item listed in the batch has its flag changed between [s] and [s']. *)
Definition no_listed_flag_changed (batch : list TechSelection) (s s' : Store) : Prop :=
  forall t i i', In t batch ->
                 In i (teamTechStackItem s) -> In i' (teamTechStackItem s') ->
                 tti_id i = techId t -> tti_id i' = techId t ->
                 tti_isSelected i' = tti_isSelected i.

(** An update that lists item 1 twice, first deselected and then selected. *)
Definition listed_twice : UpdateTechSelectionsDto :=
  {| categories :=
       [ {| categoryId := 1;
            techs := [ {| techId := 1; isSelected := false |};
                       {| techId := 1; isSelected := true |} ] |} ] |}.

(** Alice proposes React, Bob votes for it, then both remove their votes. *)
Definition history : list Operation :=
  [ ProposeTech 100 alice 1 {| techName := "React"; techCategoryId := 1 |};
    AddVote 200 bob 1 1;
    RemoveVote alice 1 1;
    RemoveVote bob 1 1 ].

(** ** GlobalService: identity helpers and form checks *)

(** The exception [validateLoggedInAndTeamMember] throws. *)
Inductive Unauthorized := UnauthorizedException (message : string).

(** [voyageTeamMember.findFirst({ where: { voyageTeamId, userId }, select: ... })];
    the selection keeps the three columns the record has. *)
Definition validateLoggedInAndTeamMember (teamId : Z) (uuid : string) (s : Store)
  : Store * (VoyageTeamMember + Unauthorized) :=
  match find (fun m => (vtm_voyageTeamId m =? teamId) && (vtm_userId m =? uuid)%string)
             (voyageTeamMember s) with
  | None =>
      (s, inr (UnauthorizedException
                 ("TeamId (id: " ++ Js.show teamId ++ ") and/or loggedIn userId (id: "
                                 ++ uuid ++ ") is invalid.")))
  | Some teamMember => (s, inl teamMember)
  end.

(** An entry of [req.user.voyageTeams]. *)
Record UserVoyageTeam := { uvt_teamId : Z; uvt_memberId : Z }.

Record CustomRequest := { voyageTeams : list UserVoyageTeam }.

(** [req.user.voyageTeams.find((t) => t.teamId == teamId)?.memberId], then
    [if (!teamMemberId) throw]. *)
Definition getVoyageTeamMemberId (req : CustomRequest) (teamId : Z) : Result Z :=
  let teamMemberId :=
    option_map uvt_memberId (find (fun t => uvt_teamId t =? teamId) (voyageTeams req)) in
  match teamMemberId with
  | Some m =>
      if m =? 0
      then Throw (BadRequestException ("Invalid Team Id (id: " ++ Js.show teamId ++ ")."))
      else Ok m
  | None => Throw (BadRequestException ("Invalid Team Id (id: " ++ Js.show teamId ++ ")."))
  end.

(** A value inside a template string. *)
Definition render (v : Js.Value) : string :=
  match v with
  | Js.Undefined => "undefined"
  | Js.Null => "null"
  | Js.Bool true => "true"
  | Js.Bool false => "false"
  | Js.Number n => Js.show n
  | Js.Str s => s
  end.

Record Question := { question_id : Z }.

Record Form := {
  form_id : Z;
  form_title : string;
  form_questions : list Question
}.

(** [x === q] for a question id [q]. *)
Definition is_question (q : Z) (x : Js.Value) : bool :=
  match x with
  | Js.Number n => n =? q
  | _ => false
  end.

(** [questionIds.indexOf(x)], counting from position [i]. *)
Fixpoint indexOf_from (i : Z) (questionIds : list Z) (x : Js.Value) : Z :=
  match questionIds with
  | [] => -1
  | q :: rest => if is_question q x then i else indexOf_from (i + 1) rest x
  end.

Definition indexOf (questionIds : list Z) (x : Js.Value) : Z :=
  indexOf_from 0 questionIds x.

(** [array.forEach(callback)] with a callback that may throw. *)
Fixpoint forEach {A} (callback : A -> Result unit) (array : list A) : Result unit :=
  match array with
  | [] => Ok tt
  | x :: rest =>
      match callback x with
      | Ok _ => forEach callback rest
      | Throw e => Throw e
      end
  end.

(** [form.questions.flatMap((question) => question.id)] *)
Definition questionIds_of (form : Form) : list Z :=
  flat_map (fun question => [question_id question]) (form_questions form).

(** [checkQuestionsInFormById] over the form table it reads. *)
Definition checkQuestionsInFormById (forms : list Form) (formId : Z)
           (responsesArray : list Js.Object) : Result unit :=
  match find (fun f => form_id f =? formId) forms with
  | None => Throw (TypeError "Cannot read properties of null (reading 'questions')")
  | Some form =>
      let questionIds := questionIds_of form in
      forEach
        (fun response =>
           if indexOf questionIds (Js.get response "questionId") =? -1
           then Throw (BadRequestException
                         ("Question Id " ++ render (Js.get response "questionId")
                            ++ " is not in form " ++ form_title form
                            ++ " (id: " ++ Js.show formId ++ ")"))
           else Ok tt)
        responsesArray
  end.

(** [checkQuestionsInFormByTitle] over the form table it reads. *)
Definition checkQuestionsInFormByTitle (forms : list Form) (title : string)
           (responsesArray : list Js.Object) : Result unit :=
  match find (fun f => (form_title f =? title)%string) forms with
  | None => Throw (TypeError "Cannot read properties of null (reading 'questions')")
  | Some form =>
      let questionIds := questionIds_of form in
      forEach
        (fun response =>
           if indexOf questionIds (Js.get response "questionId") =? -1
           then Throw (BadRequestException
                         ("Question Id " ++ render (Js.get response "questionId")
                            ++ " is not in form " ++ title
                            ++ " (id: " ++ Js.show (form_id form) ++ ")"))
           else Ok tt)
        responsesArray
  end.

(** ** Vocabulary of the further properties *)

(** The response [v] answers a question of [form]. *)
Definition answers (form : Form) (v : Js.Object) : Prop :=
  exists question,
    In question (form_questions form)
    /\ Js.get v "questionId" = Js.Number (question_id question).

(** The message for a response whose question is not in the form. *)
Definition not_in_form (form : Form) (v : Js.Object) : Exception :=
  BadRequestException
    ("Question Id " ++ render (Js.get v "questionId")
       ++ " is not in form " ++ form_title form
       ++ " (id: " ++ Js.show (form_id form) ++ ")").

(** The responses a DTO lists, in property order. *)
Definition listed_responses (responses : FormDto) : list Js.Object :=
  flat_map (fun field =>
              if includes responseIndex (fst field)
              then match snd field with
                   | FieldArray vs => vs
                   | FieldValue _ => []
                   end
              else [])
           responses.

(** The tables the subsystem only reads. *)
Definition reference_tables (s : Store)
  : list VoyageTeam * list User * list VoyageTeamMember * list TechStackCategory :=
  (voyageTeam s, user s, voyageTeamMember s, techStackCategory s).

(** The tables the subsystem only reads are those of [s0]. *)
Definition same_reference_tables (s0 s : Store) : Prop :=
  voyageTeam s = voyageTeam s0
  /\ user s = user s0
  /\ voyageTeamMember s = voyageTeamMember s0
  /\ techStackCategory s = techStackCategory s0.

(** Items other than [X] and the votes of items other than [X] are those of [s0]. *)
Definition same_outside (X : Z) (s0 s : Store) : Prop :=
  filter (fun i => negb (Prisma.is_item X i)) (teamTechStackItem s)
  = filter (fun i => negb (Prisma.is_item X i)) (teamTechStackItem s0)
  /\ filter (fun v => negb (Prisma.votes_for X v)) (teamTechStackItemVote s)
     = filter (fun v => negb (Prisma.votes_for X v)) (teamTechStackItemVote s0).

(** A form with two questions, and one with none. *)
Definition checkin_forms : list Form :=
  [ {| form_id := 1; form_title := "Sprint Check-in";
       form_questions := [ {| question_id := 1 |}; {| question_id := 2 |} ] |};
    {| form_id := 2; form_title := "Empty form"; form_questions := [] |} ].

(** Bob as the permission guard sees him: member 2 of team 1. *)
Definition bob_session : CustomRequest :=
  {| voyageTeams := [ {| uvt_teamId := 1; uvt_memberId := 2 |} ] |}.

(** ** A proposal in flight

    [addNewTeamTech] suspends at each of its three awaited storage calls. *)

Inductive ProposeTask :=
| PT_findMember
| PT_createItem (voyageMemberId : Z)
| PT_createVote (voyageMemberId : Z) (newTeamTechItem : TeamTechStackItem)
| PT_settled (r : Result VoteResponse).

(** The [catch] block of [addNewTeamTech]. *)
Definition addNewTeamTech_catch {A} (createTechVoteDto : CreateTeamTechDto)
           (e : Exception) : Async A :=
  if has_code e "P2002"
  then throw (ConflictException
                (techName createTechVoteDto
                   ++ " already exists in the available team tech stack."))
  else throw e.

Definition addNewTeamTech_step (now : Z) (req : Request) (teamId : Z)
           (createTechVoteDto : CreateTeamTechDto)
           (t : ProposeTask) : Store -> Store * ProposeTask :=
  match t with
  | PT_findMember =>
      resume PT_settled throw
        (voyageMemberId <- findVoyageMemberId req teamId ;;
         voyageMemberId <- require_id voyageMemberId
                             (BadRequestException "Invalid User or Team Id") ;;
         ret (PT_createItem voyageMemberId))
  | PT_createItem voyageMemberId =>
      resume PT_settled (addNewTeamTech_catch createTechVoteDto)
        (newTeamTechItem <- Prisma.teamTechStackItem_create
                              (techName createTechVoteDto)
                              (techCategoryId createTechVoteDto) teamId ;;
         ret (PT_createVote voyageMemberId newTeamTechItem))
  | PT_createVote voyageMemberId newTeamTechItem =>
      resume PT_settled (addNewTeamTech_catch createTechVoteDto)
        (TeamTechItemFirstVote <- Prisma.teamTechStackItemVote_create now
                                    (tti_id newTeamTechItem) voyageMemberId ;;
         ret (PT_settled
                (Ok {| teamTechStackItemVoteId := ttv_id TeamTechItemFirstVote;
                       teamTechId := tti_id newTeamTechItem;
                       teamMemberId := ttv_teamMemberId TeamTechItemFirstVote;
                       createdAt := ttv_createdAt TeamTechItemFirstVote;
                       updatedAt := ttv_updatedAt TeamTechItemFirstVote |})))
  | PT_settled r => fun s => (s, PT_settled r)
  end.

(** An [addNewTeamTech] request and an [addExistingTechVote] request in
    flight against one store. *)
Record ProposalRace := {
  shared : Store;
  proposer : ProposeTask;
  supporter : AddVoteTask
}.

Inductive ProposalTurn := TurnPropose | TurnVote.

Record ProposalRequests := {
  pr_now : Z; pr_req : Request; pr_teamId : Z; pr_dto : CreateTeamTechDto;
  vt_now : Z; vt_req : Request; vt_teamId : Z; vt_teamTechId : Z
}.

Definition proposal_step (q : ProposalRequests) (c : ProposalRace) (t : ProposalTurn)
  : ProposalRace :=
  match t with
  | TurnPropose =>
      let (s', p) := addNewTeamTech_step (pr_now q) (pr_req q) (pr_teamId q) (pr_dto q)
                                         (proposer c) (shared c) in
      {| shared := s'; proposer := p; supporter := supporter c |}
  | TurnVote =>
      let (s', a) := addExistingTechVote_step (vt_now q) (vt_req q) (vt_teamId q)
                                              (vt_teamTechId q) (supporter c) (shared c) in
      {| shared := s'; proposer := proposer c; supporter := a |}
  end.

Definition proposal_run (q : ProposalRequests) (schedule : list ProposalTurn) (s : Store)
  : ProposalRace :=
  fold_left (proposal_step q) schedule
            {| shared := s; proposer := PT_findMember; supporter := AV_findItem |}.

(** The two requests served one after the other. *)
Definition propose_then_vote (q : ProposalRequests) (s : Store) : ProposalRace :=
  let (s1, p) := addNewTeamTech (pr_now q) (pr_req q) (pr_teamId q) (pr_dto q) s in
  let (s2, a) := addExistingTechVote (vt_now q) (vt_req q) (vt_teamId q)
                                     (vt_teamTechId q) s1 in
  {| shared := s2; proposer := PT_settled p; supporter := AV_settled a |}.

Definition vote_then_propose (q : ProposalRequests) (s : Store) : ProposalRace :=
  let (s1, a) := addExistingTechVote (vt_now q) (vt_req q) (vt_teamId q)
                                     (vt_teamTechId q) s in
  let (s2, p) := addNewTeamTech (pr_now q) (pr_req q) (pr_teamId q) (pr_dto q) s1 in
  {| shared := s2; proposer := PT_settled p; supporter := AV_settled a |}.

(** Alice proposes Vue while a second request of hers votes for item 2, the
    item her proposal is inserting. *)
Definition vue_race : ProposalRequests :=
  {| pr_now := 300; pr_req := alice; pr_teamId := 1;
     pr_dto := {| techName := "Vue"; techCategoryId := 1 |};
     vt_now := 310; vt_req := alice; vt_teamId := 1; vt_teamTechId := 2 |}.

(** The vote runs between the insert of the item and the insert of its
    first vote. *)
Definition vote_between_the_inserts : list ProposalTurn :=
  [TurnPropose; TurnPropose; TurnVote; TurnVote; TurnVote; TurnPropose].

(** The item the interrupted proposal leaves in the store. *)
Definition vue : TeamTechStackItem :=
  {| tti_id := 2; tti_name := "Vue"; tti_categoryId := 1; tti_voyageTeamId := 1;
     tti_isSelected := false |}.

(** ** Numbers a template string prints digit by digit *)

Definition MAX_SAFE_INTEGER : Z := 2 ^ 53 - 1.

(** Integers that are numbers of the language and print as their digits. *)
Definition safe_integer (n : Z) : Prop := Z.abs n <= MAX_SAFE_INTEGER.

Definition safe_value (v : Js.Value) : Prop :=
  match v with
  | Js.Number n => safe_integer n
  | _ => True
  end.

(** * Properties *)

(** ** Form responses *)

Lemma responseEntry_keys (v : Js.Object) : Js.keys (responseEntry v) = entryKeys.
Proof.
  unfold responseEntry, or_null.
  destruct (Js.truthy (Js.get v "text")), (Js.truthy (Js.get v "numeric")),
    (Js.truthy (Js.get v "boolean")), (Js.truthy (Js.get v "optionChoiceId"));
    reflexivity.
Qed.

Lemma responseEntry_questionId (v : Js.Object) :
  Js.get (responseEntry v) "questionId" = Js.get v "questionId".
Proof.
  unfold responseEntry, or_null.
  destruct (Js.truthy (Js.get v "text")), (Js.truthy (Js.get v "numeric")),
    (Js.truthy (Js.get v "boolean")), (Js.truthy (Js.get v "optionChoiceId"));
    reflexivity.
Qed.

Lemma responseEntry_nullable (v : Js.Object) (k : string) :
  In k nullableKeys ->
  Js.get (responseEntry v) k
  = if Js.truthy (Js.get v k) then Js.get v k else Js.Null.
Proof.
  intros Hk. unfold nullableKeys in Hk. simpl in Hk.
  unfold responseEntry, or_null.
  destruct Hk as [<- | [<- | [<- | [<- | []]]]];
    destruct (Js.truthy (Js.get v "text")), (Js.truthy (Js.get v "numeric")),
      (Js.truthy (Js.get v "boolean")), (Js.truthy (Js.get v "optionChoiceId"));
    reflexivity.
Qed.

Lemma or_null_falsy (v w : Js.Object) (k : string) :
  Js.get v k = Js.get w k
  \/ (Js.truthy (Js.get v k) = false /\ Js.truthy (Js.get w k) = false) ->
  or_null v k = or_null w k.
Proof.
  unfold or_null. intros [E | [Ev Ew]].
  - now rewrite E.
  - now rewrite Ev, Ew.
Qed.

Lemma responseEntry_same_up_to_falsy (v w : Js.Object) :
  same_up_to_falsy v w -> responseEntry v = responseEntry w.
Proof.
  intros [Hq Hk]. unfold responseEntry. rewrite Hq.
  rewrite (or_null_falsy v w "text"), (or_null_falsy v w "numeric"),
    (or_null_falsy v w "boolean"), (or_null_falsy v w "optionChoiceId");
    try reflexivity; apply Hk; unfold nullableKeys; simpl; auto 6.
Qed.

Lemma responseDtoToArray_from_rows (responses : FormDto) :
  forall acc rows,
    responseDtoToArray_from acc responses = Ok rows ->
    forall row, In row rows ->
                In row acc \/ exists v, given responses v /\ row = responseEntry v.
Proof.
  induction responses as [| [index value] rest IH]; intros acc rows H row Hrow.
  - simpl in H. injection H as <-. now left.
  - cbn [responseDtoToArray_from] in H.
    destruct (includes responseIndex index) eqn:Hidx.
    + destruct value as [vs | x]; [| discriminate H].
      destruct (IH _ _ H row Hrow) as [Hacc | (v & (i & ws & Hin & Hi & Hv) & ->)].
      * apply in_app_or in Hacc. destruct Hacc as [Hacc | Hnew]; [now left |].
        apply in_map_iff in Hnew. destruct Hnew as (v & <- & Hv).
        right. exists v. split; [| reflexivity].
        exists index, vs. repeat split; simpl; auto.
      * right. exists v. split; [| reflexivity].
        exists i, ws. repeat split; simpl; auto.
    + destruct (IH _ _ H row Hrow) as [Hacc | (v & (i & ws & Hin & Hi & Hv) & ->)].
      * now left.
      * right. exists v. split; [| reflexivity].
        exists i, ws. repeat split; simpl; auto.
Qed.

Lemma responseDtoToArray_from_total (responses : FormDto) :
  well_typed responses ->
  forall acc, exists rows, responseDtoToArray_from acc responses = Ok rows.
Proof.
  induction responses as [| [index value] rest IH]; intros Hty acc.
  - exists acc. reflexivity.
  - assert (Hrest : well_typed rest).
    { intros i x Hin. apply (Hty i x). now right. }
    cbn [responseDtoToArray_from].
    destruct (includes responseIndex index) eqn:Hidx.
    + destruct (Hty index value (or_introl eq_refl) Hidx) as [vs ->].
      apply IH, Hrest.
    + apply IH, Hrest.
Qed.

(** C10: every entry produced by [responseDtoToArray] has exactly the keys
    questionId, text, numeric, boolean and optionChoiceId; it copies the
    question id of the response it comes from and holds null for every
    optional field whose given value is falsy (so false, 0, the empty string
    and a missing field all give the same entry); on a DTO whose indexed
    properties are arrays the function returns. *)
Theorem responseDtoToArray_nulls_falsy_fields (responses : FormDto) :
  (well_typed responses -> exists rows, responseDtoToArray responses = Ok rows)
  /\ (forall rows,
         responseDtoToArray responses = Ok rows ->
         forall row, In row rows ->
           exists v, given responses v
                     /\ Js.keys row = entryKeys
                     /\ Js.get row "questionId" = Js.get v "questionId"
                     /\ forall k, In k nullableKeys ->
                          Js.get row k
                          = if Js.truthy (Js.get v k) then Js.get v k else Js.Null)
  /\ (forall v w, same_up_to_falsy v w -> responseEntry v = responseEntry w).
Proof.
  split; [| split].
  - intros Hty. apply responseDtoToArray_from_total, Hty.
  - intros rows H row Hrow.
    destruct (responseDtoToArray_from_rows _ _ H row Hrow)
      as [[] | (v & Hv & ->)].
    exists v. split; [exact Hv |].
    split; [apply responseEntry_keys |].
    split; [apply responseEntry_questionId |].
    intros k Hk. now apply responseEntry_nullable.
  - apply responseEntry_same_up_to_falsy.
Qed.

Lemma responseDtoToArray_nulls_falsy_fields_witness :
  responseDtoToArray sample_form
  = Ok [ [("questionId", Js.Number 1); ("text", Js.Null); ("numeric", Js.Null);
          ("boolean", Js.Null); ("optionChoiceId", Js.Null)];
         [("questionId", Js.Number 2); ("text", Js.Null); ("numeric", Js.Null);
          ("boolean", Js.Null); ("optionChoiceId", Js.Null)];
         [("questionId", Js.Number 3); ("text", Js.Str "All good");
          ("numeric", Js.Null); ("boolean", Js.Null); ("optionChoiceId", Js.Null)] ]
  /\ responseEntry [("questionId", Js.Number 1); ("boolean", Js.Bool false)]
     = responseEntry [("questionId", Js.Number 1)].
Proof.
  split; [reflexivity |].
  apply (proj2 (proj2 (responseDtoToArray_nulls_falsy_fields sample_form))).
  split; [reflexivity |].
  intros k Hk. unfold nullableKeys in Hk. simpl in Hk.
  destruct Hk as [<- | [<- | [<- | [<- | []]]]]; vm_compute; auto.
Defined.

(** ** The selection cap *)

Lemma validateSelectionCount_over (cats : list TechCategorySelection) (s : Store) :
  (exists category, In category cats /\ MAX_SELECTION_COUNT < selectCount category) ->
  validateSelectionCount cats s = (s, Throw (BadRequestException cap_message)).
Proof.
  induction cats as [| c rest IH]; intros (category & Hin & Hover).
  - destruct Hin.
  - cbn [validateSelectionCount].
    destruct (MAX_SELECTION_COUNT <? selectCount c) eqn:Hc; [reflexivity |].
    apply IH. destruct Hin as [-> | Hin].
    + apply Z.ltb_ge in Hc. lia.
    + now exists category.
Qed.

Lemma validateSelectionCount_within (cats : list TechCategorySelection) (s : Store) :
  (forall category, In category cats -> selectCount category <= MAX_SELECTION_COUNT) ->
  validateSelectionCount cats s = (s, Ok tt).
Proof.
  induction cats as [| c rest IH]; intros Hall.
  - reflexivity.
  - cbn [validateSelectionCount].
    destruct (MAX_SELECTION_COUNT <? selectCount c) eqn:Hc.
    + apply Z.ltb_lt in Hc. specialize (Hall c (or_introl eq_refl)). lia.
    + apply IH. intros category Hin. apply Hall. now right.
Qed.

Lemma validateSelectionCount_cases (cats : list TechCategorySelection) (s : Store) :
  validateSelectionCount cats s = (s, Ok tt)
  \/ validateSelectionCount cats s = (s, Throw (BadRequestException cap_message)).
Proof.
  induction cats as [| c rest IH].
  - now left.
  - cbn [validateSelectionCount].
    destruct (MAX_SELECTION_COUNT <? selectCount c); [now right | exact IH].
Qed.

(** C3: when some category of the request has more than 3 entries marked as
    selected, [updateTechStackSelections] throws BadRequest and the store is
    the one it was given, whoever the caller is (the check runs before the
    caller is resolved and before any write); when every category has at most
    3 of them, so also with exactly 3, the check passes. *)
Theorem updateTechStackSelections_cap
        (s : Store) (req : Request) (teamId : Z) (dto : UpdateTechSelectionsDto) :
  ((exists category,
       In category (categories dto) /\ MAX_SELECTION_COUNT < selectCount category) ->
   updateTechStackSelections req teamId dto s
   = (s, Throw (BadRequestException "Only 3 selections allowed per category")))
  /\ ((forall category,
          In category (categories dto) -> selectCount category <= MAX_SELECTION_COUNT) ->
      validateSelectionCount (categories dto) s = (s, Ok tt)).
Proof.
  split.
  - intros Hover. unfold updateTechStackSelections, bind.
    now rewrite (validateSelectionCount_over _ s Hover).
  - apply validateSelectionCount_within.
Qed.

Lemma updateTechStackSelections_cap_witness :
  updateTechStackSelections alice 1 four_selected one_vote
  = (one_vote, Throw (BadRequestException "Only 3 selections allowed per category"))
  /\ validateSelectionCount (categories three_selected) one_vote = (one_vote, Ok tt).
Proof.
  split.
  - apply (proj1 (updateTechStackSelections_cap one_vote alice 1 four_selected)).
    eexists. split; [left; reflexivity | vm_compute; reflexivity].
  - apply (proj2 (updateTechStackSelections_cap one_vote alice 1 three_selected)).
    intros category [<- | []]. vm_compute. discriminate.
Defined.

(** ** The identity gate *)

Lemma findVoyageMemberId_absent (s : Store) (req : Request) (teamId : Z) :
  find (Prisma.is_membership (userId req) teamId) (voyageTeamMember s) = None ->
  findVoyageMemberId req teamId s = (s, Ok None).
Proof.
  intros H. unfold findVoyageMemberId, bind, Prisma.voyageTeamMember_findUnique, query, ret.
  now rewrite H.
Qed.

(** C8: when the caller has no membership in the target team, each of the
    four mutating operations throws BadRequest and leaves the store exactly as
    it was. *)
Theorem no_membership_no_change
        (onDelete : ReferentialAction) (s : Store) (req : Request) (teamId : Z) :
  find (Prisma.is_membership (userId req) teamId) (voyageTeamMember s) = None ->
  (forall dto, exists msg,
      updateTechStackSelections req teamId dto s = (s, Throw (BadRequestException msg)))
  /\ (forall now dto, exists msg,
         addNewTeamTech now req teamId dto s = (s, Throw (BadRequestException msg)))
  /\ (forall now teamTechId, exists msg,
         addExistingTechVote now req teamId teamTechId s
         = (s, Throw (BadRequestException msg)))
  /\ (forall teamTechId, exists msg,
         removeVote onDelete req teamId teamTechId s
         = (s, Throw (BadRequestException msg))).
Proof.
  intros Habsent. pose proof (findVoyageMemberId_absent s req teamId Habsent) as Hfind.
  repeat split.
  - intros dto. unfold updateTechStackSelections, bind.
    destruct (validateSelectionCount_cases (categories dto) s) as [-> | ->].
    + rewrite Hfind. cbn. eexists; reflexivity.
    + eexists; reflexivity.
  - intros now dto. unfold addNewTeamTech, bind. rewrite Hfind. cbn.
    eexists; reflexivity.
  - intros now teamTechId.
    unfold addExistingTechVote, bind, Prisma.teamTechStackItem_findUnique, query.
    destruct (find (Prisma.is_item teamTechId) (teamTechStackItem s)).
    + rewrite Hfind. cbn. eexists; reflexivity.
    + cbn. eexists; reflexivity.
  - intros teamTechId. unfold removeVote, bind. rewrite Hfind. cbn.
    eexists; reflexivity.
Qed.

Lemma no_membership_no_change_witness :
  updateTechStackSelections carol 1 three_selected two_votes
  = (two_votes, Throw (BadRequestException "Invalid User or Team Id"))
  /\ addNewTeamTech 300 carol 1 {| techName := "Vue"; techCategoryId := 1 |} two_votes
     = (two_votes, Throw (BadRequestException "Invalid User or Team Id"))
  /\ addExistingTechVote 300 carol 1 1 two_votes
     = (two_votes, Throw (BadRequestException "Invalid User"))
  /\ removeVote Cascade carol 1 1 two_votes
     = (two_votes, Throw (BadRequestException "Invalid User")).
Proof.
  assert (Habsent : find (Prisma.is_membership (userId carol) 1)
                         (voyageTeamMember two_votes) = None) by reflexivity.
  destruct (no_membership_no_change Cascade two_votes carol 1 Habsent)
    as (Hu & Hp & Ha & Hr).
  split; [| split; [| split]].
  - destruct (Hu three_selected) as [msg H]. rewrite H. vm_compute in H.
    now injection H as <-.
  - destruct (Hp 300 {| techName := "Vue"; techCategoryId := 1 |}) as [msg H].
    rewrite H. vm_compute in H. now injection H as <-.
  - destruct (Ha 300 1) as [msg H]. rewrite H. vm_compute in H. now injection H as <-.
  - destruct (Hr 1) as [msg H]. rewrite H. vm_compute in H. now injection H as <-.
Defined.

(** ** The catalog read *)

Lemma getAllTechItemsByTeamId_returns (teamId : Z) (s : Store) :
  getAllTechItemsByTeamId teamId s
  = (s, Ok (map (select_category s teamId) (techStackCategory s))).
Proof.
  unfold getAllTechItemsByTeamId, bind, unawaited, validateTeamId, bind,
    Prisma.voyageTeam_findUnique, query, techStackCategory_findMany, query.
  destruct (find (Prisma.is_team teamId) (voyageTeam s)); reflexivity.
Qed.

(** C7 (the code departs from it): team 7 does not exist; [validateTeamId]
    throws NotFound for it, but [getAllTechItemsByTeamId] calls the validator
    without awaiting it and returns the catalog, every category with no
    items, instead of failing. *)
Theorem getAllTechItemsByTeamId_absent_team :
  validateTeamId 7 seed
  = (seed, Throw (NotFoundException "Team (id: 7) doesn't exist."))
  /\ getAllTechItemsByTeamId 7 seed
     = (seed, Ok [ {| cc_id := 1; cc_name := "Frontend";
                      cc_description := "Frontend stack";
                      teamTechStackItems := [] |} ]).
Proof.
  split; reflexivity.
Qed.

(** ** Requests in flight: the task machine runs the service's code *)

Lemma removeVote_task_alone
      (onDelete : ReferentialAction) (req : Request) (teamId teamTechId : Z) (s : Store) :
  iterate 4 (fun c => removeVote_step onDelete req teamId teamTechId (snd c) (fst c))
          (s, RV_findMember)
  = (fst (removeVote onDelete req teamId teamTechId s),
     RV_settled (snd (removeVote onDelete req teamId teamTechId s))).
Proof.
  unfold removeVote. run_task.
Qed.

Lemma addExistingTechVote_task_alone
      (now : Z) (req : Request) (teamId teamTechId : Z) (s : Store) :
  iterate 3 (fun c => addExistingTechVote_step now req teamId teamTechId (snd c) (fst c))
          (s, AV_findItem)
  = (fst (addExistingTechVote now req teamId teamTechId s),
     AV_settled (snd (addExistingTechVote now req teamId teamTechId s))).
Proof.
  unfold addExistingTechVote. run_task.
Qed.

(** C9 (the code departs from it): [removeVote] deletes the vote, reads the
    remaining votes and deletes the item in three separate storage calls, so
    a vote can be cast between the read and the deletion.  In this schedule
    Bob's vote is acknowledged; with cascading deletion [removeVote] reports
    success too and Bob's vote is gone from the final store with the item,
    with restricting deletion [removeVote] ends in a storage error; in both
    cases the outcome is that of neither serial order of the two requests. *)
Theorem removeVote_race_not_serialized :
  (let final := race_run Cascade last_vote_race vote_between_read_and_delete one_vote in
   remover final = RV_settled (Ok vote_and_item_deleted)
   /\ voter final = AV_settled (Ok bobs_vote)
   /\ teamTechStackItemVote (store final) = []
   /\ teamTechStackItem (store final) = []
   /\ final <> remove_then_add Cascade last_vote_race one_vote
   /\ final <> add_then_remove Cascade last_vote_race one_vote)
  /\ (let final := race_run Restrict last_vote_race vote_between_read_and_delete one_vote in
      remover final
      = RV_settled (Throw (PrismaClientKnownRequestError
                             "P2003" "Foreign key constraint failed"))
      /\ voter final = AV_settled (Ok bobs_vote)
      /\ final <> remove_then_add Restrict last_vote_race one_vote
      /\ final <> add_then_remove Restrict last_vote_race one_vote).
Proof.
  split; cbv zeta.
  - split; [reflexivity |]. split; [reflexivity |].
    split; [reflexivity |]. split; [reflexivity |].
    split; intros H.
    + apply (f_equal voter) in H. vm_compute in H. discriminate H.
    + apply (f_equal remover) in H. vm_compute in H. discriminate H.
  - split; [reflexivity |]. split; [reflexivity |].
    split; intros H; apply (f_equal remover) in H; vm_compute in H; discriminate H.
Qed.

(** ** List facts used by the store lemmas *)

Section ListFacts.

Context {A B : Type}.

(** Dropping elements keeps the images under [f] pairwise distinct. *)
Lemma NoDup_map_filter (keep : A -> bool) (f : A -> B) :
  forall xs : list A, NoDup (map f xs) -> NoDup (map f (filter keep xs)).
Proof.
  intros xs. induction xs as [| x xs IH]; cbn; intros Hnd; [constructor |].
  inversion Hnd as [| y ys Hfresh Hrest]; subst.
  destruct (keep x); cbn; [| now apply IH].
  constructor; [| now apply IH].
  intros Hin. apply Hfresh.
  apply in_map_iff in Hin. destruct Hin as (z & Hz & Hin).
  apply filter_In in Hin. apply in_map_iff. exists z. tauto.
Qed.

Lemma NoDup_snoc (l : list A) (x : A) :
  NoDup l -> ~ In x l -> NoDup (l ++ [x]).
Proof.
  induction l as [| a l IH]; simpl; intros Hnd Hx.
  - constructor; [intros [] | constructor].
  - inversion Hnd as [| y ys Hnotin Hnodup]; subst.
    constructor.
    + intros Hin. apply in_app_or in Hin. destruct Hin as [Hin | [-> | []]]; tauto.
    + apply IH; tauto.
Qed.

Lemma filter_nil_existsb (p : A -> bool) (l : list A) :
  filter p l = [] -> existsb p l = false.
Proof.
  induction l as [| a l IH]; simpl; [reflexivity |].
  destruct (p a); [discriminate | exact IH].
Qed.

Lemma existsb_false_In (p : A -> bool) (l : list A) (x : A) :
  existsb p l = false -> In x l -> p x = false.
Proof.
  intros H Hin. destruct (p x) eqn:E; [| reflexivity].
  assert (existsb p l = true) by (apply existsb_exists; eauto). congruence.
Qed.

Lemma find_none_existsb (p : A -> bool) (l : list A) :
  find p l = None -> existsb p l = false.
Proof.
  induction l as [| a l IH]; simpl; [reflexivity |].
  destruct (p a); [discriminate | exact IH].
Qed.

Lemma find_some_existsb (p : A -> bool) (l : list A) (x : A) :
  find p l = Some x -> existsb p l = true.
Proof.
  intros H. apply find_some in H. apply existsb_exists. exists x. exact H.
Qed.

Lemma existsb_find_some (p : A -> bool) (l : list A) :
  existsb p l = true -> exists x, find p l = Some x.
Proof.
  induction l as [| a l IH]; simpl; [discriminate |].
  destruct (p a); [eauto | exact IH].
Qed.

(** A key that identifies elements selects at most one of them. *)
Lemma filter_length_le_one (key : A -> B) (sel : A -> bool) (xs : list A) :
  (forall x y, sel x = true -> sel y = true -> key x = key y) ->
  NoDup (map key xs) ->
  (List.length (filter sel xs) <= 1)%nat.
Proof.
  intros Hsel Hnd. induction xs as [| a xs IH]; cbn; [lia |].
  inversion Hnd as [| x ys Hfresh Hrest]; subst.
  destruct (sel a) eqn:Ha; [| now apply IH].
  destruct (filter sel xs) as [| b rest] eqn:Hf; cbn; [lia |].
  exfalso. apply Hfresh.
  assert (Hb : In b (filter sel xs)) by (rewrite Hf; now left).
  apply filter_In in Hb. destruct Hb as [Hb Hsb].
  rewrite (Hsel a b Ha Hsb). now apply in_map.
Qed.

End ListFacts.

(** ** Reasoning about actions *)

Lemma readonly_preserves {A} (P : Store -> Prop) (m : Async A) :
  readonly m -> preserves P m.
Proof.
  intros Hm s s' r HP H. specialize (Hm s). rewrite H in Hm. simpl in Hm. now subst.
Qed.

Lemma preserves_ret {A} (P : Store -> Prop) (a : A) : preserves P (ret a).
Proof. intros s s' r HP H. unfold ret in H. now injection H as <- _. Qed.

Lemma preserves_throw {A} (P : Store -> Prop) (e : Exception) :
  preserves P (@throw A e).
Proof. intros s s' r HP H. unfold throw in H. now injection H as <- _. Qed.

Lemma preserves_query {A} (P : Store -> Prop) (f : Store -> A) : preserves P (query f).
Proof. intros s s' r HP H. unfold query in H. now injection H as <- _. Qed.

Lemma preserves_bind {A B} (P : Store -> Prop) (m : Async A) (k : A -> Async B) :
  preserves P m -> (forall a, preserves P (k a)) -> preserves P (bind m k).
Proof.
  intros Hm Hk s s' r HP H. unfold bind in H.
  destruct (m s) as [s1 [a | e]] eqn:Em.
  - apply (Hk a s1 s' r); [apply (Hm s s1 (Ok a)) |]; assumption.
  - injection H as <- _. apply (Hm s s1 (Throw e)); assumption.
Qed.

Lemma preserves_try_catch {A} (P : Store -> Prop) (m : Async A)
      (h : Exception -> Async A) :
  preserves P m -> (forall e, preserves P (h e)) -> preserves P (try_catch m h).
Proof.
  intros Hm Hh s s' r HP H. unfold try_catch in H.
  destruct (m s) as [s1 [a | e]] eqn:Em.
  - injection H as <- _. apply (Hm s s1 (Ok a)); assumption.
  - apply (Hh e s1 s' r); [apply (Hm s s1 (Throw e)) |]; assumption.
Qed.

Lemma preserves_sequence {A} (P : Store -> Prop) (ms : list (Async A)) :
  (forall m, In m ms -> preserves P m) -> preserves P (Prisma.sequence ms).
Proof.
  induction ms as [| m rest IH]; intros Hall; cbn [Prisma.sequence].
  - apply preserves_ret.
  - apply preserves_bind; [apply Hall; now left |].
    intros a. apply preserves_bind; [apply IH; intros; apply Hall; now right |].
    intros l. apply preserves_ret.
Qed.

Lemma preserves_transaction {A} (P : Store -> Prop) (ms : list (Async A)) :
  (forall m, In m ms -> preserves P m) -> preserves P (Prisma.transaction ms).
Proof.
  intros Hall s s' r HP H. unfold Prisma.transaction in H.
  destruct (Prisma.sequence ms s) as [s1 [l | e]] eqn:Es.
  - injection H as <- _. eapply preserves_sequence; eauto.
  - now injection H as <- _.
Qed.

Lemma findVoyageMemberId_readonly (req : Request) (teamId : Z) :
  readonly (findVoyageMemberId req teamId).
Proof. intros s. reflexivity. Qed.

Lemma require_id_readonly (o : option Z) (e : Exception) : readonly (require_id o e).
Proof. intros s. unfold require_id. destruct o as [m |]; [destruct (m =? 0) |]; reflexivity. Qed.

Lemma validateSelectionCount_readonly (cats : list TechCategorySelection) :
  readonly (validateSelectionCount cats).
Proof.
  intros s. destruct (validateSelectionCount_cases cats s) as [-> | ->]; reflexivity.
Qed.

Lemma removeVote_catch_readonly {A} (e : Exception) : readonly (@removeVote_catch A e).
Proof. intros s. unfold removeVote_catch. destruct (has_code e "P2025"); reflexivity. Qed.

Lemma addExistingTechVote_catch_readonly {A} (id : Z) (e : Exception) :
  readonly (@addExistingTechVote_catch A id e).
Proof.
  intros s. unfold addExistingTechVote_catch. destruct (has_code e "P2002"); reflexivity.
Qed.

(** What [findVoyageMemberId] returns. *)
Lemma findVoyageMemberId_result (req : Request) (teamId : Z) (s : Store) :
  findVoyageMemberId req teamId s
  = (s, Ok (option_map vtm_id
                       (find (Prisma.is_membership (userId req) teamId)
                             (voyageTeamMember s)))).
Proof.
  unfold findVoyageMemberId, bind, Prisma.voyageTeamMember_findUnique, query, ret.
  destruct (find _ _); reflexivity.
Qed.

Lemma resolves_member (s : Store) (req : Request) (teamId m : Z) :
  resolves s req teamId m ->
  exists mem, In mem (voyageTeamMember s) /\ vtm_id mem = m
              /\ vtm_userId mem = userId req /\ vtm_voyageTeamId mem = teamId.
Proof.
  unfold resolves. rewrite findVoyageMemberId_result. intros H.
  destruct (find _ _) as [mem |] eqn:Hf; simpl in H; [| discriminate].
  injection H as <-. apply find_some in Hf. destruct Hf as [Hin Hm].
  unfold Prisma.is_membership in Hm. apply andb_true_iff in Hm.
  destruct Hm as [Hu Ht]. apply String.eqb_eq in Hu. apply Z.eqb_eq in Ht.
  exists mem. auto.
Qed.

(** ** The storage primitives keep the store's integrity *)

Lemma set_selected_id (id : Z) (b : bool) (i : TeamTechStackItem) :
  tti_id (Prisma.set_selected id b i) = tti_id i.
Proof. unfold Prisma.set_selected. destruct (Prisma.is_item id i); reflexivity. Qed.

Lemma set_selected_ids (id : Z) (b : bool) (items : list TeamTechStackItem) :
  map tti_id (map (Prisma.set_selected id b) items) = map tti_id items.
Proof.
  rewrite map_map. apply map_ext. intros i. apply set_selected_id.
Qed.

Lemma existsb_is_item_ids (x : Z) (l l' : list TeamTechStackItem) :
  map tti_id l' = map tti_id l ->
  existsb (Prisma.is_item x) l' = existsb (Prisma.is_item x) l.
Proof.
  intros H.
  assert (E : forall k, existsb (Prisma.is_item x) k = existsb (fun y => y =? x) (map tti_id k)).
  { induction k as [| a k IH]; simpl; [reflexivity |]. now rewrite IH. }
  now rewrite (E l), (E l'), H.
Qed.

Lemma teamTechStackItem_create_integrity (name : string) (categoryId teamId : Z) :
  preserves integrity (Prisma.teamTechStackItem_create name categoryId teamId).
Proof.
  intros s s' r I H. unfold Prisma.teamTechStackItem_create in H.
  unfold Prisma.P2002, Prisma.P2003, throw in H.
  destruct (existsb _ (teamTechStackItem s)); [now injection H as <- _ |].
  destruct (negb (existsb _ (voyageTeam s))); [now injection H as <- _ |].
  destruct (negb (existsb _ (techStackCategory s))); [now injection H as <- _ |].
  injection H as <- _. destruct I as [Hpos Hteam Hbelow Hitem Huniq].
  constructor; cbn; auto.
  - intros i Hin. apply in_app_or in Hin. destruct Hin as [Hin | [<- | []]].
    + specialize (Hbelow i Hin). lia.
    + cbn. lia.
  - intros v Hin. rewrite existsb_app. now rewrite (Hitem v Hin).
Qed.

Lemma teamTechStackItem_update_integrity (id : Z) (b : bool) :
  preserves integrity (Prisma.teamTechStackItem_update id b).
Proof.
  intros s s' r I H. unfold Prisma.teamTechStackItem_update in H.
  unfold Prisma.P2025, throw in H.
  destruct (find _ (teamTechStackItem s)); [| now injection H as <- _].
  injection H as <- _. destruct I as [Hpos Hteam Hbelow Hitem Huniq].
  constructor; cbn; auto.
  - intros i Hin. apply in_map_iff in Hin. destruct Hin as (j & <- & Hj).
    rewrite set_selected_id. now apply Hbelow.
  - intros v Hin.
    rewrite (existsb_is_item_ids _ (teamTechStackItem s)
                                 (map (Prisma.set_selected id b) (teamTechStackItem s))).
    + now apply Hitem.
    + apply set_selected_ids.
Qed.

Lemma item_survives_delete (id x : Z) (items : list TeamTechStackItem) :
  x <> id ->
  existsb (Prisma.is_item x) items = true ->
  existsb (Prisma.is_item x) (filter (fun j => negb (Prisma.is_item id j)) items) = true.
Proof.
  intros Hne H. apply existsb_exists in H. destruct H as (i & Hin & Hi).
  apply existsb_exists. exists i. split; [| exact Hi].
  apply filter_In. split; [exact Hin |].
  unfold Prisma.is_item in *. apply Z.eqb_eq in Hi.
  apply negb_true_iff, Z.eqb_neq. lia.
Qed.

Lemma teamTechStackItem_delete_integrity (onDelete : ReferentialAction) (id : Z) :
  preserves integrity (Prisma.teamTechStackItem_delete onDelete id).
Proof.
  intros s s' r I H. unfold Prisma.teamTechStackItem_delete in H.
  unfold Prisma.P2025, Prisma.P2003, throw in H.
  destruct (find _ (teamTechStackItem s)); [| now injection H as <- _].
  destruct I as [Hpos Hteam Hbelow Hitem Huniq].
  destruct onDelete.
  - injection H as <- _. constructor; cbn; auto.
    + intros i Hin. apply filter_In in Hin. now apply Hbelow.
    + intros v Hin. apply filter_In in Hin. destruct Hin as [Hin Hv].
      apply item_survives_delete; [| now apply Hitem].
      unfold Prisma.votes_for in Hv. apply negb_true_iff, Z.eqb_neq in Hv. exact Hv.
    + now apply NoDup_map_filter.
  - destruct (existsb (Prisma.votes_for id) (teamTechStackItemVote s)) eqn:Hv.
    + injection H as <- _. now constructor.
    + injection H as <- _. constructor; cbn; auto.
      * intros i Hin. apply filter_In in Hin. now apply Hbelow.
      * intros v Hin. apply item_survives_delete; [| now apply Hitem].
        pose proof (existsb_false_In _ _ v Hv Hin) as Hx.
        unfold Prisma.votes_for in Hx. now apply Z.eqb_neq in Hx.
Qed.

Lemma is_vote_key (x m : Z) (v : TeamTechStackItemVote) :
  Prisma.is_vote x m v = true <-> vote_key v = (x, m).
Proof.
  unfold Prisma.is_vote, vote_key. rewrite andb_true_iff, !Z.eqb_eq.
  split; [intros [-> ->]; reflexivity | intros H; injection H; auto].
Qed.

Lemma teamTechStackItemVote_create_integrity (now teamTechId teamMemberId : Z) :
  preserves integrity (Prisma.teamTechStackItemVote_create now teamTechId teamMemberId).
Proof.
  intros s s' r I H. unfold Prisma.teamTechStackItemVote_create in H.
  unfold Prisma.P2002, Prisma.P2003, throw in H.
  destruct (existsb (Prisma.is_vote _ _) _) eqn:Hdup; [now injection H as <- _ |].
  destruct (existsb (Prisma.is_item _) _) eqn:Hfk; cbn in H; [| now injection H as <- _].
  destruct (negb (existsb _ (voyageTeamMember s))); [now injection H as <- _ |].
  injection H as <- _. destruct I as [Hpos Hteam Hbelow Hitem Huniq].
  constructor; cbn; auto.
  - intros v Hin. apply in_app_or in Hin. destruct Hin as [Hin | [<- | []]]; auto.
  - rewrite map_app. cbn. apply NoDup_snoc; [exact Huniq |].
    intros Hin. apply in_map_iff in Hin. destruct Hin as (w & Hw & Hin).
    pose proof (existsb_false_In _ _ w Hdup Hin) as Hx.
    change (vote_key w = (teamTechId, teamMemberId)) in Hw.
    apply is_vote_key in Hw. congruence.
Qed.

Lemma teamTechStackItemVote_delete_integrity (teamTechId teamMemberId : Z) :
  preserves integrity (Prisma.teamTechStackItemVote_delete teamTechId teamMemberId).
Proof.
  intros s s' r I H. unfold Prisma.teamTechStackItemVote_delete in H.
  unfold Prisma.P2025, throw in H.
  destruct (find _ (teamTechStackItemVote s)); [| now injection H as <- _].
  injection H as <- _. destruct I as [Hpos Hteam Hbelow Hitem Huniq].
  constructor; cbn; auto.
  - intros v Hin. apply filter_In in Hin. now apply Hitem.
  - now apply NoDup_map_filter.
Qed.

(** ** Every operation keeps the store's integrity *)

Lemma updateTechStackSelections_integrity
      (req : Request) (teamId : Z) (dto : UpdateTechSelectionsDto) :
  preserves integrity (updateTechStackSelections req teamId dto).
Proof.
  unfold updateTechStackSelections.
  apply preserves_bind;
    [apply readonly_preserves, validateSelectionCount_readonly | intros _].
  apply preserves_bind;
    [apply readonly_preserves, findVoyageMemberId_readonly | intros o].
  apply preserves_bind; [apply readonly_preserves, require_id_readonly | intros _].
  apply preserves_transaction. intros m Hin.
  apply in_map_iff in Hin. destruct Hin as (tech & <- & _).
  apply teamTechStackItem_update_integrity.
Qed.

Lemma addNewTeamTech_integrity
      (now : Z) (req : Request) (teamId : Z) (dto : CreateTeamTechDto) :
  preserves integrity (addNewTeamTech now req teamId dto).
Proof.
  unfold addNewTeamTech.
  apply preserves_bind;
    [apply readonly_preserves, findVoyageMemberId_readonly | intros o].
  apply preserves_bind; [apply readonly_preserves, require_id_readonly | intros m].
  apply preserves_try_catch.
  - apply preserves_bind; [apply teamTechStackItem_create_integrity | intros i].
    apply preserves_bind; [apply teamTechStackItemVote_create_integrity | intros v].
    apply preserves_ret.
  - intros e. destruct (has_code e "P2002"); apply preserves_throw.
Qed.

Lemma addExistingTechVote_integrity (now : Z) (req : Request) (teamId teamTechId : Z) :
  preserves integrity (addExistingTechVote now req teamId teamTechId).
Proof.
  unfold addExistingTechVote.
  apply preserves_bind; [apply preserves_query | intros [i |]];
    [| apply preserves_throw].
  apply preserves_bind;
    [apply readonly_preserves, findVoyageMemberId_readonly | intros o].
  apply preserves_bind; [apply readonly_preserves, require_id_readonly | intros m].
  apply preserves_try_catch.
  - apply preserves_bind; [apply teamTechStackItemVote_create_integrity | intros v].
    apply preserves_ret.
  - intros e. apply readonly_preserves, addExistingTechVote_catch_readonly.
Qed.

Lemma removeVote_integrity
      (onDelete : ReferentialAction) (req : Request) (teamId teamTechId : Z) :
  preserves integrity (removeVote onDelete req teamId teamTechId).
Proof.
  unfold removeVote.
  apply preserves_bind;
    [apply readonly_preserves, findVoyageMemberId_readonly | intros o].
  apply preserves_bind; [apply readonly_preserves, require_id_readonly | intros m].
  apply preserves_try_catch.
  - apply preserves_bind; [apply teamTechStackItemVote_delete_integrity | intros v].
    apply preserves_bind; [apply preserves_query | intros [votes |]];
      [| apply preserves_throw].
    destruct (Z.of_nat (List.length votes) =? 0); [| apply preserves_ret].
    apply preserves_bind; [apply teamTechStackItem_delete_integrity | intros i].
    apply preserves_ret.
  - intros e. apply readonly_preserves, removeVote_catch_readonly.
Qed.

Lemma perform_integrity (onDelete : ReferentialAction) (op : Operation) (s : Store) :
  integrity s -> integrity (perform onDelete op s).
Proof.
  intros I.
  destruct op as [req t dto | now req t dto | now req t x | req t x]; cbn [perform].
  - destruct (updateTechStackSelections req t dto s) as [s' r] eqn:E.
    exact (updateTechStackSelections_integrity req t dto I E).
  - destruct (addNewTeamTech now req t dto s) as [s' r] eqn:E.
    exact (addNewTeamTech_integrity now req t dto I E).
  - destruct (addExistingTechVote now req t x s) as [s' r] eqn:E.
    exact (addExistingTechVote_integrity now req t x I E).
  - destruct (removeVote onDelete req t x s) as [s' r] eqn:E.
    exact (removeVote_integrity onDelete req t x I E).
Qed.

Lemma reachable_integrity (onDelete : ReferentialAction) (s0 s : Store) :
  integrity s0 -> reachable onDelete s0 s -> integrity s.
Proof.
  intros I0 Hr. induction Hr as [| s op Hr IH]; [exact I0 |].
  now apply perform_integrity.
Qed.

(** ** What the storage primitives compute *)

Lemma with_votes_same (s : Store) : with_votes s (teamTechStackItemVote s) (voteSeq s) = s.
Proof. now destruct s. Qed.

Lemma filter_none_for (X : Z) (votes : list TeamTechStackItemVote) :
  existsb (Prisma.votes_for X) votes = false ->
  filter (fun v => negb (Prisma.votes_for X v)) votes = votes.
Proof.
  induction votes as [| v rest IH]; simpl; [reflexivity |].
  intros H. apply orb_false_iff in H. destruct H as [Hv Hrest].
  rewrite Hv. simpl. now rewrite IH.
Qed.

Lemma teamTechStackItemVote_delete_found
      (X m : Z) (s : Store) (v : TeamTechStackItemVote) :
  find (Prisma.is_vote X m) (teamTechStackItemVote s) = Some v ->
  Prisma.teamTechStackItemVote_delete X m s
  = (with_votes s (filter (fun w => negb (Prisma.is_vote X m w)) (teamTechStackItemVote s))
                (voteSeq s),
     Ok v).
Proof. intros H. unfold Prisma.teamTechStackItemVote_delete. now rewrite H. Qed.

Lemma teamTechStackItemVote_delete_missing (X m : Z) (s : Store) :
  find (Prisma.is_vote X m) (teamTechStackItemVote s) = None ->
  Prisma.teamTechStackItemVote_delete X m s
  = (s, Throw (PrismaClientKnownRequestError "P2025" "Record to delete does not exist.")).
Proof. intros H. unfold Prisma.teamTechStackItemVote_delete. now rewrite H. Qed.

Lemma teamTechStackItem_delete_unreferenced
      (onDelete : ReferentialAction) (X : Z) (s : Store) (i : TeamTechStackItem) :
  find (Prisma.is_item X) (teamTechStackItem s) = Some i ->
  existsb (Prisma.votes_for X) (teamTechStackItemVote s) = false ->
  Prisma.teamTechStackItem_delete onDelete X s
  = (with_items s (filter (fun j => negb (Prisma.is_item X j)) (teamTechStackItem s))
                (itemSeq s),
     Ok i).
Proof.
  intros Hi Hv. unfold Prisma.teamTechStackItem_delete. rewrite Hi.
  destruct onDelete.
  - rewrite (filter_none_for _ _ Hv). now destruct s.
  - now rewrite Hv.
Qed.

Lemma votes_after_delete (X m : Z) (votes : list TeamTechStackItemVote) :
  (List.length (filter (Prisma.votes_for X)
                       (filter (fun w => negb (Prisma.is_vote X m w)) votes))
   + List.length (filter (Prisma.is_vote X m) votes)
   = List.length (filter (Prisma.votes_for X) votes))%nat.
Proof.
  induction votes as [| v rest IH]; simpl; [reflexivity |].
  assert (Hiv : Prisma.is_vote X m v
                = Prisma.votes_for X v && (ttv_teamMemberId v =? m)) by reflexivity.
  rewrite Hiv.
  destruct (Prisma.votes_for X v) eqn:Hx; destruct (ttv_teamMemberId v =? m) eqn:Hm;
    simpl; rewrite ?Hx; simpl; lia.
Qed.

Lemma one_vote_per_key (X m : Z) (s : Store) (v : TeamTechStackItemVote) :
  integrity s ->
  In v (teamTechStackItemVote s) -> vote_key v = (X, m) ->
  List.length (filter (Prisma.is_vote X m) (teamTechStackItemVote s)) = 1%nat.
Proof.
  intros I Hin Hkey.
  assert (Hle : (List.length (filter (Prisma.is_vote X m) (teamTechStackItemVote s)) <= 1)%nat).
  { apply filter_length_le_one with (key := vote_key); [| apply (vote_key_unique I)].
    intros x y Hx Hy. apply is_vote_key in Hx, Hy. congruence. }
  assert (Hge : In v (filter (Prisma.is_vote X m) (teamTechStackItemVote s))).
  { apply filter_In. split; [exact Hin | now apply is_vote_key]. }
  destruct (filter (Prisma.is_vote X m) (teamTechStackItemVote s)); [destruct Hge |].
  simpl in *. lia.
Qed.

Lemma resolves_require (s : Store) (req : Request) (teamId m : Z) (e : Exception) :
  integrity s -> resolves s req teamId m -> require_id (Some m) e s = (s, Ok m).
Proof.
  intros I Hres. destruct (resolves_member Hres) as (mem & Hin & <- & _).
  pose proof (member_ids_positive I mem Hin) as Hpos.
  unfold require_id. destruct (vtm_id mem =? 0) eqn:E; [| reflexivity].
  apply Z.eqb_eq in E. lia.
Qed.

(** ** removeVote on an existing vote *)

Section RemoveExistingVote.

Variable onDelete : ReferentialAction.
Variables (s : Store) (req : Request) (teamId X m : Z).
Hypothesis Hintegrity : integrity s.
Hypothesis Hresolves : resolves s req teamId m.
Hypothesis Hvote :
  exists v, In v (teamTechStackItemVote s) /\ vote_key v = (X, m).

Lemma remaining_count :
  (List.length (filter (Prisma.votes_for X) (remaining s X m)) + 1 = voteCount s X)%nat.
Proof.
  destruct Hvote as (v & Hin & Hkey). unfold remaining, voteCount.
  rewrite <- (votes_after_delete X m (teamTechStackItemVote s)).
  now rewrite (one_vote_per_key Hintegrity Hin Hkey).
Qed.

Lemma removeVote_last_vote :
  voteCount s X = 1%nat ->
  removeVote onDelete req teamId X s
  = (with_items (with_votes s (remaining s X m) (voteSeq s))
                (filter (fun j => negb (Prisma.is_item X j)) (teamTechStackItem s))
                (itemSeq s),
     Ok vote_and_item_deleted).
Proof.
  intros Hcount. pose proof remaining_count as Hrem.
  destruct Hvote as (v & Hin & Hkey).
  assert (Hfind : exists v', find (Prisma.is_vote X m) (teamTechStackItemVote s) = Some v').
  { apply existsb_find_some, existsb_exists. exists v. split; [exact Hin |].
    now apply is_vote_key. }
  destruct Hfind as [v' Hfind].
  assert (Hitem : exists i, find (Prisma.is_item X) (teamTechStackItem s) = Some i).
  { apply existsb_find_some. pose proof (vote_item_exists Hintegrity v Hin) as Hex.
    unfold vote_key in Hkey. injection Hkey as Hx _. now rewrite Hx in Hex. }
  destruct Hitem as [i Hitem].
  unfold removeVote, bind. rewrite Hresolves.
  rewrite (resolves_require _ Hintegrity Hresolves).
  unfold try_catch, bind. rewrite (teamTechStackItemVote_delete_found _ _ _ Hfind).
  fold (remaining s X m).
  unfold Prisma.teamTechStackItem_findUnique_votes, query. cbn [teamTechStackItem with_votes teamTechStackItemVote].
  rewrite Hitem.
  destruct (filter (Prisma.votes_for X) (remaining s X m)) as [| w ws] eqn:Hf;
    [| simpl in Hrem; lia].
  cbn [List.length Z.of_nat Z.eqb].
  rewrite (@teamTechStackItem_delete_unreferenced onDelete X
             (with_votes s (remaining s X m) (voteSeq s)) i Hitem).
  - reflexivity.
  - apply filter_nil_existsb. exact Hf.
Qed.

Lemma removeVote_other_votes :
  (2 <= voteCount s X)%nat ->
  removeVote onDelete req teamId X s
  = (with_votes s (remaining s X m) (voteSeq s), Ok vote_deleted).
Proof.
  intros Hcount. pose proof remaining_count as Hrem.
  destruct Hvote as (v & Hin & Hkey).
  assert (Hfind : exists v', find (Prisma.is_vote X m) (teamTechStackItemVote s) = Some v').
  { apply existsb_find_some, existsb_exists. exists v. split; [exact Hin |].
    now apply is_vote_key. }
  destruct Hfind as [v' Hfind].
  assert (Hitem : exists i, find (Prisma.is_item X) (teamTechStackItem s) = Some i).
  { apply existsb_find_some. pose proof (vote_item_exists Hintegrity v Hin) as Hex.
    unfold vote_key in Hkey. injection Hkey as Hx _. now rewrite Hx in Hex. }
  destruct Hitem as [i Hitem].
  unfold removeVote, bind. rewrite Hresolves.
  rewrite (resolves_require _ Hintegrity Hresolves).
  unfold try_catch, bind. rewrite (teamTechStackItemVote_delete_found _ _ _ Hfind).
  fold (remaining s X m).
  unfold Prisma.teamTechStackItem_findUnique_votes, query. cbn [teamTechStackItem with_votes teamTechStackItemVote].
  rewrite Hitem.
  destruct (filter (Prisma.votes_for X) (remaining s X m)) as [| w ws] eqn:Hf;
    [simpl in Hrem; lia |].
  reflexivity.
Qed.

End RemoveExistingVote.

(** ** The example stores are consistent *)

Lemma seed_integrity : integrity seed.
Proof.
  constructor; cbn.
  - intros m [<- | [<- | []]]; cbn; lia.
  - intros m [<- | [<- | []]]; reflexivity.
  - intros i [].
  - intros v [].
  - constructor.
Qed.

Lemma one_vote_integrity : integrity one_vote.
Proof.
  unfold one_vote.
  destruct (addNewTeamTech 100 alice 1 {| techName := "React"; techCategoryId := 1 |} seed)
    as [s' r] eqn:E.
  exact (addNewTeamTech_integrity _ _ _ _ seed_integrity E).
Qed.

Lemma two_votes_integrity : integrity two_votes.
Proof.
  unfold two_votes.
  destruct (addExistingTechVote 200 bob 1 1 one_vote) as [s' r] eqn:E.
  exact (addExistingTechVote_integrity _ _ _ _ one_vote_integrity E).
Qed.

(** ** The cascade of removeVote *)

(** C2: when the caller's vote for item [X] exists, [removeVote] deletes
    exactly that vote; if it was the item's only vote the item is deleted too
    and the message is "The vote and tech stack item were deleted"; if the
    item has two or more votes the items are untouched, every other vote stays
    and the message is "This vote was deleted". *)
Theorem removeVote_cascade
        (onDelete : ReferentialAction) (s : Store) (req : Request) (teamId X m : Z) :
  integrity s ->
  resolves s req teamId m ->
  (exists v, In v (teamTechStackItemVote s) /\ vote_key v = (X, m)) ->
  let out := removeVote onDelete req teamId X s in
  teamTechStackItemVote (fst out)
  = filter (fun w => negb (Prisma.is_vote X m w)) (teamTechStackItemVote s)
  /\ (forall w, In w (teamTechStackItemVote s) -> vote_key w <> (X, m) ->
                In w (teamTechStackItemVote (fst out)))
  /\ (forall w, In w (teamTechStackItemVote (fst out)) -> vote_key w <> (X, m))
  /\ (voteCount s X = 1%nat ->
      snd out = Ok {| message := "The vote and tech stack item were deleted";
                      statusCode := 200 |}
      /\ teamTechStackItem (fst out)
         = filter (fun j => negb (Prisma.is_item X j)) (teamTechStackItem s)
      /\ forall i, In i (teamTechStackItem (fst out)) -> tti_id i <> X)
  /\ ((2 <= voteCount s X)%nat ->
      snd out = Ok {| message := "This vote was deleted"; statusCode := 200 |}
      /\ teamTechStackItem (fst out) = teamTechStackItem s).
Proof.
  intros I Hres Hvote out.
  assert (Hvotes : teamTechStackItemVote (fst out)
                   = filter (fun w => negb (Prisma.is_vote X m w))
                            (teamTechStackItemVote s)).
  { pose proof (remaining_count I Hvote) as Hrem. cbv zeta in Hrem.
    destruct (voteCount s X) as [| [| n]] eqn:Hc; [lia | |].
    - subst out. now rewrite (removeVote_last_vote onDelete I Hres Hvote Hc).
    - subst out. rewrite (removeVote_other_votes onDelete I Hres Hvote); [reflexivity |].
      rewrite Hc. lia. }
  split; [exact Hvotes |]. split; [| split; [| split]].
  - intros w Hin Hkey. rewrite Hvotes. apply filter_In. split; [exact Hin |].
    apply negb_true_iff. destruct (Prisma.is_vote X m w) eqn:E; [| reflexivity].
    apply is_vote_key in E. contradiction.
  - intros w Hin Hkey. rewrite Hvotes in Hin. apply filter_In in Hin.
    destruct Hin as [_ Hw]. apply negb_true_iff in Hw.
    apply is_vote_key in Hkey. congruence.
  - intros Hc. subst out. rewrite (removeVote_last_vote onDelete I Hres Hvote Hc).
    cbn [fst snd teamTechStackItem with_items].
    split; [reflexivity |]. split; [reflexivity |].
    intros i Hin. apply filter_In in Hin. destruct Hin as [_ Hi].
    unfold Prisma.is_item in Hi. now apply negb_true_iff, Z.eqb_neq in Hi.
  - intros Hc. subst out. rewrite (removeVote_other_votes onDelete I Hres Hvote Hc).
    split; reflexivity.
Qed.

Lemma removeVote_cascade_witness :
  (snd (removeVote Cascade alice 1 1 one_vote)
   = Ok {| message := "The vote and tech stack item were deleted"; statusCode := 200 |}
   /\ teamTechStackItem (fst (removeVote Cascade alice 1 1 one_vote)) = []
   /\ teamTechStackItemVote (fst (removeVote Cascade alice 1 1 one_vote)) = [])
  /\ (snd (removeVote Cascade alice 1 1 two_votes)
      = Ok {| message := "This vote was deleted"; statusCode := 200 |}
      /\ teamTechStackItem (fst (removeVote Cascade alice 1 1 two_votes))
         = teamTechStackItem two_votes
      /\ teamTechStackItemVote (fst (removeVote Cascade alice 1 1 two_votes))
         = [ {| ttv_id := 2; ttv_teamTechId := 1; ttv_teamMemberId := 2;
                ttv_createdAt := 200; ttv_updatedAt := 200 |} ]).
Proof.
  split.
  - assert (Hres : resolves one_vote alice 1 1) by reflexivity.
    assert (Hvote : exists v, In v (teamTechStackItemVote one_vote) /\ vote_key v = (1, 1)).
    { eexists. split; [left; reflexivity | reflexivity]. }
    destruct (removeVote_cascade Cascade one_vote_integrity Hres Hvote)
      as (Hvotes & _ & _ & Hlast & _).
    destruct (Hlast eq_refl) as (Hmsg & Hitems & _).
    split; [exact Hmsg |]. split; [rewrite Hitems | rewrite Hvotes]; reflexivity.
  - assert (Hres : resolves two_votes alice 1 1) by reflexivity.
    assert (Hvote : exists v, In v (teamTechStackItemVote two_votes) /\ vote_key v = (1, 1)).
    { eexists. split; [left; reflexivity | reflexivity]. }
    destruct (removeVote_cascade Cascade two_votes_integrity Hres Hvote)
      as (Hvotes & _ & _ & _ & Hmore).
    assert (Hc : (2 <= voteCount two_votes 1)%nat) by (vm_compute; lia).
    destruct (Hmore Hc) as (Hmsg & Hitems).
    split; [exact Hmsg |]. split; [exact Hitems | rewrite Hvotes; reflexivity].
Defined.

(** ** One vote per member and item *)

Lemma addExistingTechVote_success
      (now : Z) (req : Request) (teamId X : Z) (s s' : Store) (r : VoteResponse) :
  addExistingTechVote now req teamId X s = (s', Ok r) ->
  exists v,
    s' = with_votes s (teamTechStackItemVote s ++ [v]) (voteSeq s + 1)
    /\ ttv_id v = voteSeq s
    /\ ttv_teamTechId v = X
    /\ resolves s req teamId (ttv_teamMemberId v)
    /\ ttv_createdAt v = now /\ ttv_updatedAt v = now
    /\ existsb (Prisma.is_vote X (ttv_teamMemberId v)) (teamTechStackItemVote s) = false
    /\ r = {| teamTechStackItemVoteId := ttv_id v;
              teamTechId := X;
              teamMemberId := ttv_teamMemberId v;
              createdAt := ttv_createdAt v;
              updatedAt := ttv_updatedAt v |}.
Proof.
  intros H. unfold addExistingTechVote, bind in H.
  unfold Prisma.teamTechStackItem_findUnique, query in H.
  destruct (find (Prisma.is_item X) (teamTechStackItem s)); [| discriminate H].
  pose proof (findVoyageMemberId_result req teamId s) as Hfind.
  rewrite Hfind in H.
  destruct (option_map vtm_id _) as [m |] eqn:Hm; [| discriminate H].
  unfold require_id in H. destruct (m =? 0); [discriminate H |].
  unfold ret at 1 in H.
  unfold try_catch, bind, Prisma.teamTechStackItemVote_create in H.
  unfold Prisma.P2002, Prisma.P2003, throw, addExistingTechVote_catch in H.
  destruct (existsb (Prisma.is_vote X m) (teamTechStackItemVote s)) eqn:Hdup;
    [discriminate H |].
  destruct (negb (existsb (Prisma.is_item X) (teamTechStackItem s)));
    [discriminate H |].
  destruct (negb (existsb (Prisma.is_member m) (voyageTeamMember s)));
    [discriminate H |].
  unfold ret in H. injection H as <- <-.
  eexists. split; [reflexivity |]. cbn.
  repeat split; try reflexivity; assumption.
Qed.

(** C6: if the caller's membership already has a vote for item [X],
    [addExistingTechVote] throws Conflict and leaves the store as it was;
    whatever the call, the votes of the resulting store have pairwise distinct
    (item, member) keys; and a call that returns has added one vote for [X] by
    the caller and returns its identifier, the item id, the member id and its
    timestamps. *)
Theorem addExistingTechVote_at_most_once
        (now : Z) (s : Store) (req : Request) (teamId X : Z) :
  integrity s ->
  (forall m,
      resolves s req teamId m ->
      (exists v, In v (teamTechStackItemVote s) /\ vote_key v = (X, m)) ->
      addExistingTechVote now req teamId X s
      = (s, Throw (ConflictException
                     ("User has already voted for techId:" ++ Js.show X))))
  /\ NoDup (map vote_key
                (teamTechStackItemVote (fst (addExistingTechVote now req teamId X s))))
  /\ (forall s' r,
         addExistingTechVote now req teamId X s = (s', Ok r) ->
         exists v,
           teamTechStackItemVote s' = (teamTechStackItemVote s ++ [v])%list
           /\ teamTechStackItem s' = teamTechStackItem s
           /\ ttv_teamTechId v = X
           /\ resolves s req teamId (ttv_teamMemberId v)
           /\ r = {| teamTechStackItemVoteId := ttv_id v;
                     teamTechId := X;
                     teamMemberId := ttv_teamMemberId v;
                     createdAt := ttv_createdAt v;
                     updatedAt := ttv_updatedAt v |}).
Proof.
  intros I. split; [| split].
  - intros m Hres (v & Hin & Hkey).
    assert (Hitem : exists i, find (Prisma.is_item X) (teamTechStackItem s) = Some i).
    { apply existsb_find_some. pose proof (vote_item_exists I v Hin) as Hex.
      unfold vote_key in Hkey. injection Hkey as Hx _. now rewrite Hx in Hex. }
    destruct Hitem as [i Hitem].
    unfold addExistingTechVote, bind, Prisma.teamTechStackItem_findUnique, query.
    rewrite Hitem, Hres, (resolves_require _ I Hres).
    unfold try_catch, bind, Prisma.teamTechStackItemVote_create.
    assert (Hdup : existsb (Prisma.is_vote X m) (teamTechStackItemVote s) = true).
    { apply existsb_exists. exists v. split; [exact Hin | now apply is_vote_key]. }
    rewrite Hdup. reflexivity.
  - destruct (addExistingTechVote now req teamId X s) as [s' r] eqn:E.
    apply vote_key_unique. exact (addExistingTechVote_integrity _ _ _ _ I E).
  - intros s' r H. destruct (addExistingTechVote_success _ _ _ _ _ H)
      as (v & -> & _ & Hx & Hres & _ & _ & _ & ->).
    exists v. repeat split; assumption.
Qed.

Lemma addExistingTechVote_at_most_once_witness :
  addExistingTechVote 300 bob 1 1 two_votes
  = (two_votes, Throw (ConflictException "User has already voted for techId:1"))
  /\ snd (addExistingTechVote 200 bob 1 1 one_vote)
     = Ok {| teamTechStackItemVoteId := 2; teamTechId := 1; teamMemberId := 2;
             createdAt := 200; updatedAt := 200 |}.
Proof.
  split.
  - apply (proj1 (addExistingTechVote_at_most_once 300 bob 1 1 two_votes_integrity) 2).
    + reflexivity.
    + eexists. split; [right; left; reflexivity | reflexivity].
  - reflexivity.
Defined.

(** ** Proposing a tech *)

Lemma proposed_existsb (s : Store) (name : string) (teamId categoryId : Z) :
  proposed s name teamId categoryId
  <-> existsb (Prisma.same_tech name teamId categoryId) (teamTechStackItem s) = true.
Proof.
  unfold proposed. rewrite existsb_exists. unfold Prisma.same_tech.
  split; intros (i & Hin & H); exists i; (split; [exact Hin |]).
  - destruct H as (-> & -> & ->). now rewrite String.eqb_refl, !Z.eqb_refl.
  - apply andb_true_iff in H. destruct H as [H Hc].
    apply andb_true_iff in H. destruct H as [Hn Ht].
    apply String.eqb_eq in Hn. apply Z.eqb_eq in Ht, Hc. auto.
Qed.

Lemma no_vote_for_next_item (s : Store) (m : Z) :
  integrity s ->
  existsb (Prisma.is_vote (itemSeq s) m) (teamTechStackItemVote s) = false.
Proof.
  intros I. destruct (existsb _ _) eqn:E; [| reflexivity].
  apply existsb_exists in E. destruct E as (v & Hin & Hv).
  unfold Prisma.is_vote in Hv. apply andb_true_iff in Hv. destruct Hv as [Hx _].
  apply Z.eqb_eq in Hx.
  pose proof (vote_item_exists I v Hin) as Hex. apply existsb_exists in Hex.
  destruct Hex as (i & Hi & Hid). unfold Prisma.is_item in Hid. apply Z.eqb_eq in Hid.
  pose proof (item_ids_below_seq I i Hi). lia.
Qed.

Section Proposal.

Variables (now : Z) (s : Store) (req : Request) (teamId m : Z) (dto : CreateTeamTechDto).
Hypothesis Hintegrity : integrity s.
Hypothesis Hresolves : resolves s req teamId m.

Lemma resolved_team_exists :
  existsb (Prisma.is_team teamId) (voyageTeam s) = true.
Proof.
  destruct (resolves_member Hresolves) as (mem & Hin & _ & _ & <-).
  exact (member_team_exists Hintegrity mem Hin).
Qed.

Lemma resolved_member_exists :
  existsb (Prisma.is_member m) (voyageTeamMember s) = true.
Proof.
  destruct (resolves_member Hresolves) as (mem & Hin & <- & _).
  apply existsb_exists. exists mem. split; [exact Hin |].
  unfold Prisma.is_member. apply Z.eqb_refl.
Qed.

Lemma addNewTeamTech_duplicate :
  proposed s (techName dto) teamId (techCategoryId dto) ->
  addNewTeamTech now req teamId dto s
  = (s, Throw (ConflictException
                 (techName dto ++ " already exists in the available team tech stack."))).
Proof.
  intros Hdup. apply proposed_existsb in Hdup.
  unfold addNewTeamTech, bind. rewrite Hresolves, (resolves_require _ Hintegrity Hresolves).
  unfold try_catch, bind, Prisma.teamTechStackItem_create. now rewrite Hdup.
Qed.

Lemma addNewTeamTech_unknown_category :
  ~ proposed s (techName dto) teamId (techCategoryId dto) ->
  existsb (Prisma.is_category (techCategoryId dto)) (techStackCategory s) = false ->
  addNewTeamTech now req teamId dto s
  = (s, Throw (PrismaClientKnownRequestError "P2003" "Foreign key constraint failed")).
Proof.
  intros Hnew Hcat. rewrite proposed_existsb in Hnew. apply not_true_is_false in Hnew.
  unfold addNewTeamTech, bind. rewrite Hresolves, (resolves_require _ Hintegrity Hresolves).
  unfold try_catch, bind, Prisma.teamTechStackItem_create.
  now rewrite Hnew, resolved_team_exists, Hcat.
Qed.

Lemma addNewTeamTech_created :
  ~ proposed s (techName dto) teamId (techCategoryId dto) ->
  existsb (Prisma.is_category (techCategoryId dto)) (techStackCategory s) = true ->
  addNewTeamTech now req teamId dto s
  = (with_proposal s now teamId m dto,
     Ok {| teamTechStackItemVoteId := voteSeq s;
           teamTechId := itemSeq s;
           teamMemberId := m;
           createdAt := now;
           updatedAt := now |}).
Proof.
  intros Hnew Hcat. rewrite proposed_existsb in Hnew. apply not_true_is_false in Hnew.
  unfold addNewTeamTech, bind. rewrite Hresolves, (resolves_require _ Hintegrity Hresolves).
  unfold try_catch, bind, Prisma.teamTechStackItem_create.
  rewrite Hnew, resolved_team_exists, Hcat. cbn [negb].
  unfold Prisma.teamTechStackItemVote_create.
  cbn [teamTechStackItemVote teamTechStackItem voyageTeamMember with_items tti_id voteSeq].
  rewrite (no_vote_for_next_item m Hintegrity).
  rewrite existsb_app. cbn [existsb]. unfold Prisma.is_item at 2. cbn [tti_id].
  rewrite Z.eqb_refl, orb_true_r, resolved_member_exists.
  reflexivity.
Qed.

End Proposal.

Lemma addNewTeamTech_no_member
      (now : Z) (s : Store) (req : Request) (teamId : Z) (dto : CreateTeamTechDto) :
  findVoyageMemberId req teamId s = (s, Ok None) ->
  addNewTeamTech now req teamId dto s
  = (s, Throw (BadRequestException "Invalid User or Team Id")).
Proof. intros H. unfold addNewTeamTech, bind. now rewrite H. Qed.

Lemma with_proposal_no_orphan (s : Store) (now teamId m : Z) (dto : CreateTeamTechDto) :
  no_orphan s -> no_orphan (with_proposal s now teamId m dto).
Proof.
  intros Hno i Hin. cbn in Hin. apply in_app_or in Hin.
  destruct Hin as [Hin | [<- | []]].
  - destruct (Hno i Hin) as (v & Hv & Hid). exists v. split; [| exact Hid].
    cbn. apply in_or_app. now left.
  - exists (first_vote s now m). split; [| reflexivity].
    cbn. apply in_or_app. right. now left.
Qed.

Lemma addNewTeamTech_cases
      (now : Z) (s : Store) (req : Request) (teamId : Z) (dto : CreateTeamTechDto) :
  integrity s ->
  (exists e, addNewTeamTech now req teamId dto s = (s, Throw e))
  \/ (exists m, resolves s req teamId m
                /\ addNewTeamTech now req teamId dto s
                   = (with_proposal s now teamId m dto,
                      Ok {| teamTechStackItemVoteId := voteSeq s;
                            teamTechId := itemSeq s;
                            teamMemberId := m;
                            createdAt := now;
                            updatedAt := now |})).
Proof.
  intros I. pose proof (findVoyageMemberId_result req teamId s) as Hfind.
  destruct (option_map vtm_id _) as [m |] eqn:Hm.
  - destruct (existsb (Prisma.same_tech (techName dto) teamId (techCategoryId dto))
                      (teamTechStackItem s)) eqn:Hdup.
    + left. eexists. apply (addNewTeamTech_duplicate now dto I Hfind).
      now apply proposed_existsb.
    + assert (Hnew : ~ proposed s (techName dto) teamId (techCategoryId dto)).
      { rewrite proposed_existsb. congruence. }
      destruct (existsb (Prisma.is_category (techCategoryId dto))
                        (techStackCategory s)) eqn:Hcat.
      * right. exists m. split; [exact Hfind |].
        apply (addNewTeamTech_created now dto I Hfind Hnew Hcat).
      * left. eexists.
        apply (addNewTeamTech_unknown_category now dto I Hfind Hnew Hcat).
  - left. eexists. apply (addNewTeamTech_no_member now dto Hfind).
Qed.

(** The proposal task, run alone, is [addNewTeamTech]. *)
Lemma addNewTeamTech_task_alone
      (now : Z) (req : Request) (teamId : Z) (dto : CreateTeamTechDto) (s : Store) :
  iterate 3 (fun c => addNewTeamTech_step now req teamId dto (snd c) (fst c))
          (s, PT_findMember)
  = (fst (addNewTeamTech now req teamId dto s),
     PT_settled (snd (addNewTeamTech now req teamId dto s))).
Proof.
  unfold addNewTeamTech.
  repeat (cbn [iterate fst snd addNewTeamTech_step];
          unfold resume, bind, try_catch, ret, throw, require_id, addNewTeamTech_catch;
          try reflexivity;
          match goal with
          | |- context [findVoyageMemberId ?r ?t ?st] =>
              destruct (findVoyageMemberId r t st) as [? [[? |] | ?]]
          | |- context [Prisma.teamTechStackItem_create ?n ?c ?t ?st] =>
              destruct (Prisma.teamTechStackItem_create n c t st) as [? [? | ?]]
          | |- context [Prisma.teamTechStackItemVote_create ?n ?i ?m ?st] =>
              destruct (Prisma.teamTechStackItemVote_create n i m st) as [? [? | ?]]
          | |- context [if ?b then _ else _] => destruct b
          end).
Qed.

(** C5 (the code departs from it): [addNewTeamTech] inserts the item and its
    first vote in two separately awaited storage calls, outside any
    transaction and with no rollback.  Here team 1 has no tech named Vue;
    Alice proposes it and, between the two inserts, a second request of hers
    votes for the item being created.  The first-vote insert then hits the
    unique key, the [catch] block reports it as "Vue already exists", and the
    failed proposal leaves the item Vue in the store; the outcome is that of
    neither serial order of the two requests. *)
Theorem addNewTeamTech_not_rolled_back :
  let final := proposal_run vue_race vote_between_the_inserts one_vote in
  ~ proposed one_vote "Vue" 1 1
  /\ proposer final
     = PT_settled (Throw (ConflictException
                            "Vue already exists in the available team tech stack."))
  /\ supporter final
     = AV_settled (Ok {| teamTechStackItemVoteId := 2; teamTechId := 2;
                         teamMemberId := 1; createdAt := 310; updatedAt := 310 |})
  /\ teamTechStackItem (shared final) = (teamTechStackItem one_vote ++ [vue])%list
  /\ final <> propose_then_vote vue_race one_vote
  /\ final <> vote_then_propose vue_race one_vote.
Proof.
  cbv zeta. split.
  - intros (i & [<- | []] & Hname & _). discriminate Hname.
  - split; [reflexivity |]. split; [reflexivity |]. split; [reflexivity |].
    split; intros H; apply (f_equal proposer) in H; vm_compute in H; discriminate H.
Qed.

(** ** No tech item without a vote *)

Lemma no_orphan_ext (s s' : Store) :
  map tti_id (teamTechStackItem s') = map tti_id (teamTechStackItem s) ->
  incl (teamTechStackItemVote s) (teamTechStackItemVote s') ->
  no_orphan s -> no_orphan s'.
Proof.
  intros Hids Hincl Hno i Hin.
  assert (Hid : In (tti_id i) (map tti_id (teamTechStackItem s))).
  { rewrite <- Hids. now apply in_map. }
  apply in_map_iff in Hid. destruct Hid as (j & Hj & Hjin).
  destruct (Hno j Hjin) as (v & Hv & Hvid).
  exists v. split; [now apply Hincl | congruence].
Qed.

Lemma no_orphan_around (X : Z) (s s' : Store) :
  incl (teamTechStackItem s') (teamTechStackItem s) ->
  (forall v, In v (teamTechStackItemVote s) -> ttv_teamTechId v <> X ->
             In v (teamTechStackItemVote s')) ->
  (forall i, In i (teamTechStackItem s') -> tti_id i = X -> voted s' X) ->
  no_orphan s -> no_orphan s'.
Proof.
  intros Hitems Hvotes HX Hno i Hin.
  destruct (Z.eq_dec (tti_id i) X) as [E | E].
  - rewrite E. now apply (HX i).
  - destruct (Hno i (Hitems i Hin)) as (v & Hv & Hvid).
    exists v. split; [| exact Hvid]. apply Hvotes; [exact Hv | congruence].
Qed.

Lemma other_votes_remain (X m : Z) (votes : list TeamTechStackItemVote)
      (v : TeamTechStackItemVote) :
  In v votes -> ttv_teamTechId v <> X ->
  In v (filter (fun w => negb (Prisma.is_vote X m w)) votes).
Proof.
  intros Hin Hne. apply filter_In. split; [exact Hin |].
  apply negb_true_iff. unfold Prisma.is_vote.
  apply andb_false_iff. left. now apply Z.eqb_neq.
Qed.

Lemma removeVote_no_orphan
      (onDelete : ReferentialAction) (req : Request) (teamId X : Z) (s : Store) :
  no_orphan s -> no_orphan (fst (removeVote onDelete req teamId X s)).
Proof.
  intros Hno. unfold removeVote, bind. rewrite findVoyageMemberId_result.
  destruct (option_map vtm_id _) as [m |]; [| exact Hno].
  unfold require_id. destruct (m =? 0); [exact Hno |].
  unfold ret at 1. unfold try_catch, bind.
  destruct (find (Prisma.is_vote X m) (teamTechStackItemVote s)) as [v |] eqn:Hf.
  - rewrite (teamTechStackItemVote_delete_found _ _ _ Hf).
    unfold Prisma.teamTechStackItem_findUnique_votes, query.
    cbn [teamTechStackItem with_votes teamTechStackItemVote].
    destruct (find (Prisma.is_item X) (teamTechStackItem s)) as [i |] eqn:Hi.
    + destruct (filter (Prisma.votes_for X) _) as [| w ws] eqn:Hr.
      * cbn [List.length Z.of_nat Z.eqb].
        rewrite (@teamTechStackItem_delete_unreferenced onDelete X
                   (with_votes s _ (voteSeq s)) i Hi (filter_nil_existsb _ _ Hr)).
        cbn [fst]. apply no_orphan_around with (X := X) (s := s); cbn; [| | | exact Hno].
        -- intros j Hj. apply filter_In in Hj. tauto.
        -- intros u Hu Hne. now apply other_votes_remain.
        -- intros j Hj Hid. apply filter_In in Hj. destruct Hj as [_ Hj].
           unfold Prisma.is_item in Hj. apply negb_true_iff, Z.eqb_neq in Hj.
           contradiction.
      * cbn. apply no_orphan_around with (X := X) (s := s); cbn; [apply incl_refl | | | exact Hno].
        -- intros u Hu Hne. now apply other_votes_remain.
        -- intros j Hj Hid. exists w.
           assert (Hw : In w (filter (Prisma.votes_for X)
                                     (filter (fun w0 => negb (Prisma.is_vote X m w0))
                                             (teamTechStackItemVote s))))
             by (rewrite Hr; now left).
           apply filter_In in Hw. destruct Hw as [Hw Hx].
           split; [exact Hw |]. unfold Prisma.votes_for in Hx. now apply Z.eqb_eq in Hx.
    + cbn. apply no_orphan_around with (X := X) (s := s); cbn; [apply incl_refl | | | exact Hno].
      * intros u Hu Hne. now apply other_votes_remain.
      * intros j Hj Hid. exfalso.
        pose proof (find_none _ _ Hi j Hj) as Hnone.
        unfold Prisma.is_item in Hnone. apply Z.eqb_neq in Hnone. contradiction.
  - rewrite (teamTechStackItemVote_delete_missing _ _ _ Hf). exact Hno.
Qed.

Lemma addExistingTechVote_no_orphan
      (now : Z) (req : Request) (teamId X : Z) (s : Store) :
  no_orphan s -> no_orphan (fst (addExistingTechVote now req teamId X s)).
Proof.
  intros Hno.
  destruct (addExistingTechVote now req teamId X s) as [s' [r | e]] eqn:E.
  - destruct (addExistingTechVote_success _ _ _ _ _ E) as (v & -> & _).
    cbn. apply no_orphan_ext with (s := s); cbn; [reflexivity | | exact Hno].
    intros u Hu. apply in_or_app. now left.
  - assert (Hsame : s' = s); [| cbn; now rewrite Hsame].
    revert E. unfold addExistingTechVote, bind, Prisma.teamTechStackItem_findUnique, query.
    destruct (find (Prisma.is_item X) (teamTechStackItem s));
      [| intros H; now injection H as <- _].
    rewrite findVoyageMemberId_result.
    destruct (option_map vtm_id _) as [m |]; [| intros H; now injection H as <- _].
    unfold require_id. destruct (m =? 0); [intros H; now injection H as <- _ |].
    unfold ret at 1. unfold try_catch, bind, Prisma.teamTechStackItemVote_create.
    destruct (existsb (Prisma.is_vote X m) _); [intros H; now injection H as <- _ |].
    destruct (negb (existsb (Prisma.is_item X) _)); [intros H; now injection H as <- _ |].
    destruct (negb (existsb (Prisma.is_member m) _)); [intros H; now injection H as <- _ |].
    intros H. discriminate H.
Qed.

(** ** The selection batch *)

Lemma find_app_first {A} (p : A -> bool) (l l' : list A) :
  find p (l ++ l') = match find p l with Some x => Some x | None => find p l' end.
Proof.
  induction l as [| a l IH]; simpl; [reflexivity |].
  destruct (p a); [reflexivity | exact IH].
Qed.

Lemma lastRequested_cons (t : TechSelection) (ts : list TechSelection) (id : Z) :
  lastRequested (t :: ts) id
  = match lastRequested ts id with
    | Some b => Some b
    | None => if techId t =? id then Some (isSelected t) else None
    end.
Proof.
  unfold lastRequested. cbn [rev]. rewrite find_app_first.
  destruct (find _ (rev ts)); cbn; [reflexivity |].
  destruct (techId t =? id); reflexivity.
Qed.

Lemma with_flag_same (i : TeamTechStackItem) : with_flag i (tti_isSelected i) = i.
Proof. now destruct i. Qed.

Lemma apply_batch_flags (batch : list TechSelection) :
  forall items,
    apply_batch batch items = map (fun j => with_flag j (final_flag batch j)) items.
Proof.
  induction batch as [| t ts IH]; intros items.
  - cbn. rewrite <- (map_id items) at 1. apply map_ext. intros j.
    unfold final_flag. cbn. symmetry. apply with_flag_same.
  - cbn [apply_batch fold_left]. fold (apply_batch ts). rewrite IH, map_map.
    apply map_ext. intros j. unfold final_flag.
    rewrite set_selected_id, lastRequested_cons.
    destruct (lastRequested ts (tti_id j)) as [b |].
    + unfold Prisma.set_selected. destruct (Prisma.is_item (techId t) j); reflexivity.
    + unfold Prisma.set_selected, Prisma.is_item. rewrite (Z.eqb_sym (techId t)).
      destruct (tti_id j =? techId t); reflexivity.
Qed.

Lemma apply_batch_ids (batch : list TechSelection) (items : list TeamTechStackItem) :
  map tti_id (apply_batch batch items) = map tti_id items.
Proof. rewrite apply_batch_flags, map_map. reflexivity. Qed.

Lemma with_items_same (s : Store) : with_items s (teamTechStackItem s) (itemSeq s) = s.
Proof. now destruct s. Qed.

Lemma queued_cons (t : TechSelection) (ts : list TechSelection) :
  Prisma.sequence (queued (t :: ts))
  = (a <- Prisma.teamTechStackItem_update (techId t) (isSelected t) ;;
     l <- Prisma.sequence (queued ts) ;;
     ret (a :: l)).
Proof. reflexivity. Qed.

Lemma sequence_updates_cases (batch : list TechSelection) :
  forall s,
    (exists l, Prisma.sequence (queued batch) s
               = (with_items s (apply_batch batch (teamTechStackItem s)) (itemSeq s), Ok l))
    \/ (exists s' e, Prisma.sequence (queued batch) s = (s', Throw e)).
Proof.
  induction batch as [| t ts IH]; intros s.
  - left. exists []. cbn. unfold ret. now rewrite with_items_same.
  - rewrite queued_cons. unfold bind at 1 3.
    unfold Prisma.teamTechStackItem_update.
    destruct (find (Prisma.is_item (techId t)) (teamTechStackItem s)) as [i |].
    + destruct (IH (with_items s (map (Prisma.set_selected (techId t) (isSelected t))
                                      (teamTechStackItem s)) (itemSeq s)))
        as [[l Hl] | (s' & e & Hl)].
      * left. eexists. cbv beta iota. unfold bind. rewrite Hl. reflexivity.
      * right. eexists. eexists. cbv beta iota. unfold bind. rewrite Hl. reflexivity.
    + right. eexists. eexists. reflexivity.
Qed.

Lemma sequence_updates_ok (batch : list TechSelection) :
  forall s,
    (forall t, In t batch ->
               existsb (Prisma.is_item (techId t)) (teamTechStackItem s) = true) ->
    exists l, Prisma.sequence (queued batch) s
              = (with_items s (apply_batch batch (teamTechStackItem s)) (itemSeq s), Ok l).
Proof.
  induction batch as [| t ts IH]; intros s Hall.
  - exists []. cbn. unfold ret. now rewrite with_items_same.
  - rewrite queued_cons. unfold bind at 1.
    unfold Prisma.teamTechStackItem_update at 1.
    destruct (existsb_find_some _ _ (Hall t (or_introl eq_refl))) as [i ->].
    destruct (IH (with_items s (map (Prisma.set_selected (techId t) (isSelected t))
                                    (teamTechStackItem s)) (itemSeq s))) as [l Hl].
    + intros u Hu. cbn.
      rewrite (existsb_is_item_ids _ (teamTechStackItem s)
                 (map (Prisma.set_selected (techId t) (isSelected t))
                      (teamTechStackItem s)) (set_selected_ids _ _ _)).
      apply Hall. now right.
    + eexists. cbv beta iota. unfold bind. rewrite Hl. reflexivity.
Qed.

Lemma updateTechStackSelections_cases
      (s : Store) (req : Request) (teamId : Z) (dto : UpdateTechSelectionsDto) :
  (exists l, updateTechStackSelections req teamId dto s
             = (with_items s (apply_batch (techsArray (categories dto))
                                          (teamTechStackItem s)) (itemSeq s),
                Ok l))
  \/ (exists e, updateTechStackSelections req teamId dto s = (s, Throw e)).
Proof.
  destruct (updateTechStackSelections req teamId dto s) as [s1 r1] eqn:E.
  unfold updateTechStackSelections, bind in E.
  destruct (validateSelectionCount_cases (categories dto) s) as [H | H];
    rewrite H in E; [| right; eexists; now rewrite <- E].
  rewrite findVoyageMemberId_result in E.
  destruct (option_map vtm_id _) as [m |]; [| right; eexists; now rewrite <- E].
  unfold require_id in E.
  destruct (m =? 0); [right; eexists; now rewrite <- E |].
  unfold ret at 1 in E. unfold Prisma.transaction in E.
  fold (queued (techsArray (categories dto))) in E.
  destruct (sequence_updates_cases (techsArray (categories dto)) s)
    as [[l Hl] | (s' & e & Hl)]; rewrite Hl in E.
  - left. exists l. now rewrite <- E.
  - right. exists e. now rewrite <- E.
Qed.

Lemma updateTechStackSelections_returns
      (s : Store) (req : Request) (teamId m : Z) (dto : UpdateTechSelectionsDto) :
  integrity s ->
  validateSelectionCount (categories dto) s = (s, Ok tt) ->
  resolves s req teamId m ->
  (forall t, In t (techsArray (categories dto)) ->
             existsb (Prisma.is_item (techId t)) (teamTechStackItem s) = true) ->
  exists l, updateTechStackSelections req teamId dto s
            = (with_items s (apply_batch (techsArray (categories dto))
                                         (teamTechStackItem s)) (itemSeq s),
               Ok l).
Proof.
  intros I Hval Hres Hall.
  destruct (sequence_updates_ok (techsArray (categories dto)) s Hall) as [l Hl].
  exists l. unfold updateTechStackSelections, bind.
  rewrite Hval, Hres, (resolves_require _ I Hres).
  unfold Prisma.transaction. fold (queued (techsArray (categories dto))).
  now rewrite Hl.
Qed.

Lemma updateTechStackSelections_no_orphan
      (req : Request) (teamId : Z) (dto : UpdateTechSelectionsDto) (s : Store) :
  no_orphan s -> no_orphan (fst (updateTechStackSelections req teamId dto s)).
Proof.
  intros Hno.
  destruct (updateTechStackSelections_cases s req teamId dto) as [[l ->] | [e ->]];
    [| exact Hno].
  cbn. apply no_orphan_ext with (s := s); cbn; [| apply incl_refl | exact Hno].
  apply apply_batch_ids.
Qed.

(** C4 (as the code has it): every call of [updateTechStackSelections] either
    returns, and then the item table has the same items, each item listed in
    the request carries the value of the last entry that lists it (its
    requested value when it is listed once), the unlisted items and all votes
    are as before; or it throws and the store is the one it was given.  A call
    that passes the cap check, by a member, listing only existing items,
    returns. *)
Theorem updateTechStackSelections_atomic
        (s : Store) (req : Request) (teamId : Z) (dto : UpdateTechSelectionsDto) :
  let out := updateTechStackSelections req teamId dto s in
  let batch := techsArray (categories dto) in
  ((exists updated,
       snd out = Ok updated
       /\ map tti_id (teamTechStackItem (fst out)) = map tti_id (teamTechStackItem s)
       /\ teamTechStackItemVote (fst out) = teamTechStackItemVote s
       /\ (forall i b, In i (teamTechStackItem (fst out)) ->
                       lastRequested batch (tti_id i) = Some b ->
                       tti_isSelected i = b)
       /\ (forall i, In i (teamTechStackItem (fst out)) ->
                     lastRequested batch (tti_id i) = None ->
                     In i (teamTechStackItem s)))
   \/ (exists e, snd out = Throw e /\ fst out = s))
  /\ (forall m,
         integrity s ->
         validateSelectionCount (categories dto) s = (s, Ok tt) ->
         resolves s req teamId m ->
         (forall t, In t batch ->
                    existsb (Prisma.is_item (techId t)) (teamTechStackItem s) = true) ->
         exists updated, snd out = Ok updated).
Proof.
  intros out batch. split.
  - destruct (updateTechStackSelections_cases s req teamId dto) as [[l H] | [e H]];
      subst out; rewrite H; cbn [fst snd].
    + left. exists l. split; [reflexivity |].
      cbn [teamTechStackItem teamTechStackItemVote with_items].
      split; [apply apply_batch_ids |]. split; [reflexivity |].
      fold batch. rewrite apply_batch_flags. split.
      * intros i b Hin Hlast. apply in_map_iff in Hin. destruct Hin as (j & <- & _).
        cbn in *. unfold final_flag. now rewrite Hlast.
      * intros i Hin Hlast. apply in_map_iff in Hin. destruct Hin as (j & <- & Hj).
        cbn in Hlast. unfold final_flag. rewrite Hlast. now rewrite with_flag_same.
    + right. exists e. split; reflexivity.
  - intros m I Hval Hres Hall.
    destruct (updateTechStackSelections_returns dto I Hval Hres Hall) as [l H].
    exists l. subst out. now rewrite H.
Qed.

Lemma updateTechStackSelections_atomic_witness :
  exists updated,
    snd (updateTechStackSelections alice 1 listed_twice one_vote) = Ok updated.
Proof.
  apply (proj2 (updateTechStackSelections_atomic one_vote alice 1 listed_twice) 1).
  - exact one_vote_integrity.
  - reflexivity.
  - reflexivity.
  - intros t [<- | [<- | []]]; reflexivity.
Defined.

(** C4 as worded fails: the call passes the cap check and returns, the flag of
    item 1 changes from false to true, yet the first entry asked for false. *)
Lemma updateTechStackSelections_last_entry_wins :
  validateSelectionCount (categories listed_twice) one_vote = (one_vote, Ok tt)
  /\ ~ (every_entry_as_requested
          (techsArray (categories listed_twice))
          (fst (updateTechStackSelections alice 1 listed_twice one_vote))
        \/ no_listed_flag_changed
             (techsArray (categories listed_twice)) one_vote
             (fst (updateTechStackSelections alice 1 listed_twice one_vote))).
Proof.
  split; [reflexivity |]. intros [Hall | Hnone].
  - specialize (Hall {| techId := 1; isSelected := false |}
                     {| tti_id := 1; tti_name := "React"; tti_categoryId := 1;
                        tti_voyageTeamId := 1; tti_isSelected := true |}).
    cbn in Hall. assert (true = false); [| discriminate].
    apply Hall; auto.
  - specialize (Hnone {| techId := 1; isSelected := false |}
                      {| tti_id := 1; tti_name := "React"; tti_categoryId := 1;
                         tti_voyageTeamId := 1; tti_isSelected := false |}
                      {| tti_id := 1; tti_name := "React"; tti_categoryId := 1;
                         tti_voyageTeamId := 1; tti_isSelected := true |}).
    cbn in Hnone. assert (true = false); [| discriminate].
    apply Hnone; auto.
Qed.

(** ** The global invariant *)

Lemma addNewTeamTech_no_orphan
      (now : Z) (req : Request) (teamId : Z) (dto : CreateTeamTechDto) (s : Store) :
  integrity s -> no_orphan s -> no_orphan (fst (addNewTeamTech now req teamId dto s)).
Proof.
  intros I Hno.
  destruct (addNewTeamTech_cases now req teamId dto I) as [[e ->] | (m & _ & ->)];
    [exact Hno |].
  now apply with_proposal_no_orphan.
Qed.

Lemma perform_no_orphan (onDelete : ReferentialAction) (op : Operation) (s : Store) :
  integrity s -> no_orphan s -> no_orphan (perform onDelete op s).
Proof.
  intros I Hno.
  destruct op as [req t dto | now req t dto | now req t x | req t x]; cbn [perform].
  - now apply updateTechStackSelections_no_orphan.
  - now apply addNewTeamTech_no_orphan.
  - now apply addExistingTechVote_no_orphan.
  - now apply removeVote_no_orphan.
Qed.

Lemma reachable_no_orphan (onDelete : ReferentialAction) (s0 s : Store) :
  integrity s0 -> no_orphan s0 -> reachable onDelete s0 s -> no_orphan s.
Proof.
  intros I0 Hno0 Hr. induction Hr as [| s op Hr IH]; [exact Hno0 |].
  apply perform_no_orphan; [| exact IH].
  exact (reachable_integrity I0 Hr).
Qed.

(** C1: starting from a store that satisfies the storage engine's integrity
    constraints and has no item without a vote (the empty catalog, for one),
    every store reached through any sequence of [updateTechStackSelections],
    [addNewTeamTech], [addExistingTechVote] and [removeVote] calls, returning
    or throwing, has no tech item without a vote; there, a returning
    [addNewTeamTech] leaves the new item with its creator's vote, and
    [removeVote] never leaves the item it was called for without a vote. *)
Theorem no_item_without_votes (onDelete : ReferentialAction) (s0 s : Store) :
  integrity s0 -> no_orphan s0 -> reachable onDelete s0 s ->
  no_orphan s
  /\ (forall now req teamId dto s' r,
         addNewTeamTech now req teamId dto s = (s', Ok r) ->
         (exists i, In i (teamTechStackItem s') /\ tti_id i = teamTechId r
                    /\ ~ In (tti_id i) (map tti_id (teamTechStackItem s)))
         /\ resolves s req teamId (teamMemberId r)
         /\ exists v, In v (teamTechStackItemVote s')
                      /\ ttv_teamTechId v = teamTechId r
                      /\ ttv_teamMemberId v = teamMemberId r)
  /\ (forall req teamId X s' r,
         removeVote onDelete req teamId X s = (s', r) ->
         forall i, In i (teamTechStackItem s') -> tti_id i = X -> voted s' X).
Proof.
  intros I0 Hno0 Hr.
  pose proof (reachable_integrity I0 Hr) as I.
  pose proof (reachable_no_orphan I0 Hno0 Hr) as Hno.
  split; [exact Hno |]. split.
  - intros now req teamId dto s' r H.
    destruct (addNewTeamTech_cases now req teamId dto I) as [[e He] | (m & Hres & Hm)];
      [rewrite He in H; discriminate H |].
    rewrite Hm in H. injection H as <- <-. cbn. split; [| split; [exact Hres |]].
    + exists (new_item s teamId dto). split; [apply in_or_app; right; now left |].
      split; [reflexivity |]. cbn. intros Hin.
      apply in_map_iff in Hin. destruct Hin as (j & Hid & Hj).
      pose proof (item_ids_below_seq I j Hj). lia.
    + exists (first_vote s now m). split; [apply in_or_app; right; now left |].
      split; reflexivity.
  - intros req teamId X s' r H i Hin Hid.
    pose proof (removeVote_no_orphan onDelete req teamId X Hno) as Hafter.
    rewrite H in Hafter. cbn in Hafter. rewrite <- Hid. now apply Hafter.
Qed.

Lemma reachable_history (onDelete : ReferentialAction) (ops : list Operation) :
  forall s0 s, reachable onDelete s0 s ->
               reachable onDelete s0 (fold_left (fun st op => perform onDelete op st) ops s).
Proof.
  induction ops as [| op ops IH]; intros s0 s Hr; cbn; [exact Hr |].
  apply IH. now constructor.
Qed.

Lemma no_item_without_votes_witness :
  no_orphan (fold_left (fun st op => perform Cascade op st) history seed)
  /\ no_orphan two_votes.
Proof.
  split.
  - apply (no_item_without_votes (onDelete := Cascade) (s0 := seed)).
    + exact seed_integrity.
    + intros i [].
    + apply reachable_history. constructor.
  - apply (no_item_without_votes (onDelete := Cascade) (s0 := seed)).
    + exact seed_integrity.
    + intros i [].
    + apply reachable_history
        with (ops := [ ProposeTech 100 alice 1
                                   {| techName := "React"; techCategoryId := 1 |};
                       AddVote 200 bob 1 1 ]).
      constructor.
Defined.

(** * Further properties *)

(** ** GlobalService: the member id of a session *)

Lemma find_unique_key {A} (key : A -> Z) (xs : list A) (x : A) :
  NoDup (map key xs) -> In x xs -> find (fun y => key y =? key x) xs = Some x.
Proof.
  induction xs as [| a xs IH]; cbn; intros Hnd Hin; [destruct Hin |].
  inversion Hnd as [| k ks Hfresh Hrest]; subst.
  destruct Hin as [-> | Hin]; [now rewrite Z.eqb_refl |].
  destruct (key a =? key x) eqn:E; [| now apply IH].
  apply Z.eqb_eq in E. exfalso. apply Hfresh. rewrite E. now apply in_map.
Qed.

(** X1: [getVoyageTeamMemberId] returns only the non-zero member id of a
    session entry for the team; when the session has no entry for the team it
    throws BadRequest, and it throws nothing but BadRequest; when the session
    lists each team once, an entry with a non-zero member id is always found;
    for a team id that is a safe integer the message is
    "Invalid Team Id (id: N)." with N the digits of the id. *)
Theorem getVoyageTeamMemberId_session (req : CustomRequest) (teamId : Z) :
  (forall m,
      getVoyageTeamMemberId req teamId = Ok m ->
      m <> 0 /\ exists t, In t (voyageTeams req)
                          /\ uvt_teamId t = teamId /\ uvt_memberId t = m)
  /\ ((forall t, In t (voyageTeams req) -> uvt_teamId t <> teamId) ->
      exists message,
        getVoyageTeamMemberId req teamId = Throw (BadRequestException message))
  /\ (forall e,
         getVoyageTeamMemberId req teamId = Throw e ->
         exists message, e = BadRequestException message)
  /\ (forall t,
         NoDup (map uvt_teamId (voyageTeams req)) ->
         In t (voyageTeams req) -> uvt_teamId t = teamId -> uvt_memberId t <> 0 ->
         getVoyageTeamMemberId req teamId = Ok (uvt_memberId t))
  /\ (safe_integer teamId ->
      forall e,
        getVoyageTeamMemberId req teamId = Throw e ->
        e = BadRequestException ("Invalid Team Id (id: " ++ Js.show teamId ++ ").")).
Proof.
  unfold getVoyageTeamMemberId. split; [| split; [| split; [| split]]].
  - intros m H.
    destruct (find (fun t => uvt_teamId t =? teamId) (voyageTeams req)) as [t |] eqn:Hf;
      cbn in H; [| discriminate H].
    destruct (uvt_memberId t =? 0) eqn:E; [discriminate H |].
    injection H as <-. apply Z.eqb_neq in E. split; [exact E |].
    apply find_some in Hf. destruct Hf as [Hin Ht]. apply Z.eqb_eq in Ht.
    exists t. auto.
  - intros Hnone.
    destruct (find (fun t => uvt_teamId t =? teamId) (voyageTeams req)) as [t |] eqn:Hf;
      [| eexists; reflexivity].
    apply find_some in Hf. destruct Hf as [Hin Ht]. apply Z.eqb_eq in Ht.
    now destruct (Hnone t Hin).
  - intros e H.
    destruct (find (fun t => uvt_teamId t =? teamId) (voyageTeams req)) as [t |];
      cbn in H; [destruct (uvt_memberId t =? 0) |]; inversion H; eexists; reflexivity.
  - intros t Hnd Hin Ht Hm. subst teamId.
    rewrite (find_unique_key uvt_teamId _ t Hnd Hin). cbn.
    apply Z.eqb_neq in Hm. now rewrite Hm.
  - intros _ e H.
    destruct (find (fun t => uvt_teamId t =? teamId) (voyageTeams req)) as [t |];
      cbn in H; [destruct (uvt_memberId t =? 0) |]; now inversion H.
Qed.

Lemma getVoyageTeamMemberId_session_witness :
  getVoyageTeamMemberId bob_session 1 = Ok 2
  /\ getVoyageTeamMemberId bob_session 5
     = Throw (BadRequestException "Invalid Team Id (id: 5).").
Proof.
  split.
  - apply (proj1 (proj2 (proj2 (proj2 (getVoyageTeamMemberId_session bob_session 1))))
             {| uvt_teamId := 1; uvt_memberId := 2 |}).
    + repeat constructor. intros [].
    + now left.
    + reflexivity.
    + discriminate.
  - destruct (proj1 (proj2 (getVoyageTeamMemberId_session bob_session 5)))
      as [message H].
    + intros t [<- | []]. discriminate.
    + rewrite H. f_equal.
      apply (proj2 (proj2 (proj2 (proj2 (getVoyageTeamMemberId_session bob_session 5))))).
      * unfold safe_integer, MAX_SAFE_INTEGER. cbn. lia.
      * exact H.
Defined.

(** ** GlobalService: the two ways of resolving a membership agree *)

Lemma membership_filters_agree (teamId : Z) (uuid : string) (members : list VoyageTeamMember) :
  find (fun m => (vtm_voyageTeamId m =? teamId) && (vtm_userId m =? uuid)%string) members
  = find (Prisma.is_membership uuid teamId) members.
Proof.
  induction members as [| a rest IH]; cbn; [reflexivity |].
  unfold Prisma.is_membership at 1. rewrite andb_comm.
  destruct ((vtm_userId a =? uuid)%string && (vtm_voyageTeamId a =? teamId));
    [reflexivity | exact IH].
Qed.

(** X2: [validateLoggedInAndTeamMember] never writes, and it agrees with
    [findVoyageMemberId]: it returns a membership record of the user in the
    team exactly when [findVoyageMemberId] returns that record's id, and it
    throws Unauthorized exactly when [findVoyageMemberId] returns null; for a
    team id that is a safe integer the message names the digits of the team
    id and the user id. *)
Theorem validateLoggedInAndTeamMember_agrees (s : Store) (req : Request) (teamId : Z) :
  fst (validateLoggedInAndTeamMember teamId (userId req) s) = s
  /\ match snd (validateLoggedInAndTeamMember teamId (userId req) s) with
     | inl teamMember =>
         findVoyageMemberId req teamId s = (s, Ok (Some (vtm_id teamMember)))
         /\ In teamMember (voyageTeamMember s)
         /\ vtm_userId teamMember = userId req
         /\ vtm_voyageTeamId teamMember = teamId
     | inr e =>
         findVoyageMemberId req teamId s = (s, Ok None)
         /\ (safe_integer teamId ->
             e = UnauthorizedException
                   ("TeamId (id: " ++ Js.show teamId ++ ") and/or loggedIn userId (id: "
                                   ++ userId req ++ ") is invalid."))
     end.
Proof.
  unfold validateLoggedInAndTeamMember.
  rewrite membership_filters_agree, findVoyageMemberId_result.
  destruct (find (Prisma.is_membership (userId req) teamId) (voyageTeamMember s))
    as [mem |] eqn:Hf; cbn.
  - split; [reflexivity |]. split; [reflexivity |].
    apply find_some in Hf. destruct Hf as [Hin Hm].
    unfold Prisma.is_membership in Hm. apply andb_true_iff in Hm.
    destruct Hm as [Hu Ht]. apply String.eqb_eq in Hu. apply Z.eqb_eq in Ht. auto.
  - split; [reflexivity |]. split; reflexivity.
Qed.

(** ** GlobalService: questions of a form *)

Lemma indexOf_from_absent (questionIds : list Z) (x : Js.Value) :
  forall i, 0 <= i ->
            (indexOf_from i questionIds x = -1
             <-> forall q, In q questionIds -> is_question q x = false).
Proof.
  induction questionIds as [| q rest IH]; intros i Hi; cbn.
  - split; [intros _ q [] | reflexivity].
  - destruct (is_question q x) eqn:E.
    + split; [lia |]. intros H. specialize (H q (or_introl eq_refl)). congruence.
    + rewrite (IH (i + 1)) by lia. split.
      * intros H k [<- | Hk]; [exact E | now apply H].
      * intros H k Hk. apply H. now right.
Qed.

Lemma questionIds_of_ids (form : Form) :
  questionIds_of form = map question_id (form_questions form).
Proof.
  unfold questionIds_of. induction (form_questions form) as [| q rest IH]; cbn;
    [reflexivity | now rewrite IH].
Qed.

Lemma answers_indexOf (form : Form) (v : Js.Object) :
  answers form v
  <-> (indexOf (questionIds_of form) (Js.get v "questionId") =? -1) = false.
Proof.
  rewrite Z.eqb_neq. unfold indexOf.
  rewrite indexOf_from_absent by lia.
  rewrite questionIds_of_ids. unfold answers. split.
  - intros (question & Hin & Hq) Hnone.
    specialize (Hnone (question_id question) (in_map _ _ _ Hin)).
    rewrite Hq in Hnone. cbn in Hnone. rewrite Z.eqb_refl in Hnone. discriminate.
  - intros Hsome.
    destruct (existsb (fun q => is_question q (Js.get v "questionId"))
                      (map question_id (form_questions form))) eqn:E.
    + apply existsb_exists in E. destruct E as (q & Hin & Hq).
      apply in_map_iff in Hin. destruct Hin as (question & <- & Hin).
      exists question. split; [exact Hin |].
      unfold is_question in Hq. destruct (Js.get v "questionId"); try discriminate.
      apply Z.eqb_eq in Hq. now subst.
    + exfalso. apply Hsome. intros q Hin.
      exact (existsb_false_In _ _ q E Hin).
Qed.

Lemma forEach_all_ok {A} (callback : A -> Result unit) (array : list A) :
  forEach callback array = Ok tt <-> forall x, In x array -> callback x = Ok tt.
Proof.
  induction array as [| a rest IH]; cbn.
  - split; [intros _ x [] | reflexivity].
  - destruct (callback a) as [[] | e] eqn:E.
    + rewrite IH. split.
      * intros H x [<- | Hx]; [exact E | now apply H].
      * intros H x Hx. apply H. now right.
    + split; [discriminate |]. intros H.
      specialize (H a (or_introl eq_refl)). congruence.
Qed.

Lemma forEach_first_throw {A} (callback : A -> Result unit)
      (before : list A) (x : A) (after : list A) (e : Exception) :
  (forall y, In y before -> callback y = Ok tt) ->
  callback x = Throw e ->
  forEach callback (before ++ x :: after) = Throw e.
Proof.
  intros Hbefore Hx. induction before as [| a rest IH]; cbn.
  - now rewrite Hx.
  - rewrite (Hbefore a (or_introl eq_refl)). apply IH.
    intros y Hy. apply Hbefore. now right.
Qed.

Lemma checkQuestionsInFormById_found
      (forms : list Form) (formId : Z) (form : Form) (responsesArray : list Js.Object) :
  find (fun f => form_id f =? formId) forms = Some form ->
  checkQuestionsInFormById forms formId responsesArray
  = forEach (fun response =>
               if indexOf (questionIds_of form) (Js.get response "questionId") =? -1
               then Throw (not_in_form form response)
               else Ok tt)
            responsesArray.
Proof.
  intros Hf. unfold checkQuestionsInFormById. rewrite Hf.
  apply find_some in Hf. destruct Hf as [_ Hid]. apply Z.eqb_eq in Hid.
  unfold not_in_form. now rewrite Hid.
Qed.

Lemma checkQuestionsInFormByTitle_found
      (forms : list Form) (title : string) (form : Form) (responsesArray : list Js.Object) :
  find (fun f => (form_title f =? title)%string) forms = Some form ->
  checkQuestionsInFormByTitle forms title responsesArray
  = forEach (fun response =>
               if indexOf (questionIds_of form) (Js.get response "questionId") =? -1
               then Throw (not_in_form form response)
               else Ok tt)
            responsesArray.
Proof.
  intros Hf. unfold checkQuestionsInFormByTitle. rewrite Hf.
  apply find_some in Hf. destruct Hf as [_ Ht]. apply String.eqb_eq in Ht.
  unfold not_in_form. now rewrite Ht.
Qed.

Lemma check_each_response (form : Form) (responsesArray : list Js.Object) :
  (forEach (fun response =>
              if indexOf (questionIds_of form) (Js.get response "questionId") =? -1
              then Throw (not_in_form form response)
              else Ok tt)
           responsesArray = Ok tt
   <-> forall v, In v responsesArray -> answers form v).
Proof.
  rewrite forEach_all_ok. split; intros H v Hv.
  - apply answers_indexOf. specialize (H v Hv). cbv beta in H.
    destruct (indexOf _ _ =? -1); [discriminate H | reflexivity].
  - cbv beta. specialize (H v Hv). apply answers_indexOf in H. now rewrite H.
Qed.

(** X3: for an existing form, [checkQuestionsInFormById] returns exactly
    when every response carries the id of one of the form's questions, so
    always on an empty array; otherwise it throws BadRequest for the first
    response whose question id is not in the form; when that question id and
    the form id are safe integers (or the question id is no number), the
    message names that id, the form's title and the form id. *)
Theorem checkQuestionsInFormById_checks
        (forms : list Form) (formId : Z) (form : Form) (responsesArray : list Js.Object) :
  find (fun f => form_id f =? formId) forms = Some form ->
  (checkQuestionsInFormById forms formId responsesArray = Ok tt
   <-> forall v, In v responsesArray -> answers form v)
  /\ (forall before v after,
         responsesArray = (before ++ v :: after)%list ->
         (forall u, In u before -> answers form u) ->
         ~ answers form v ->
         (exists message,
             checkQuestionsInFormById forms formId responsesArray
             = Throw (BadRequestException message))
         /\ (safe_value (Js.get v "questionId") -> safe_integer formId ->
             checkQuestionsInFormById forms formId responsesArray
             = Throw (BadRequestException
                        ("Question Id " ++ render (Js.get v "questionId")
                           ++ " is not in form " ++ form_title form
                           ++ " (id: " ++ Js.show formId ++ ")")))).
Proof.
  intros Hf. rewrite (checkQuestionsInFormById_found _ _ responsesArray Hf). split.
  - apply check_each_response.
  - intros before v after -> Hbefore Hv.
    assert (Hid : form_id form = formId).
    { apply find_some in Hf. now apply Z.eqb_eq. }
    assert (Hthrow :
              forEach (fun response =>
                         if indexOf (questionIds_of form) (Js.get response "questionId")
                            =? -1
                         then Throw (not_in_form form response)
                         else Ok tt)
                      (before ++ v :: after)
              = Throw (not_in_form form v)).
    { apply forEach_first_throw.
      - intros u Hu. cbv beta. apply Hbefore, answers_indexOf in Hu. now rewrite Hu.
      - cbv beta. rewrite answers_indexOf in Hv. apply not_false_is_true in Hv.
        now rewrite Hv. }
    rewrite Hthrow. unfold not_in_form. rewrite Hid.
    split; [eexists; reflexivity | intros _ _; reflexivity].
Qed.

Lemma checkQuestionsInFormById_checks_witness :
  checkQuestionsInFormById checkin_forms 1
    [ [("questionId", Js.Number 1)]; [("questionId", Js.Number 7)];
      [("questionId", Js.Number 9)] ]
  = Throw (BadRequestException "Question Id 7 is not in form Sprint Check-in (id: 1)").
Proof.
  assert (Hf : find (fun f => form_id f =? 1) checkin_forms
               = Some {| form_id := 1; form_title := "Sprint Check-in";
                         form_questions := [ {| question_id := 1 |};
                                             {| question_id := 2 |} ] |})
    by reflexivity.
  apply (proj2 (checkQuestionsInFormById_checks checkin_forms 1 _ Hf)
           [ [("questionId", Js.Number 1)] ] [("questionId", Js.Number 7)]
           [ [("questionId", Js.Number 9)] ]).
  - reflexivity.
  - intros u [<- | []]. exists {| question_id := 1 |}. split; [now left | reflexivity].
  - intros (question & [<- | [<- | []]] & Hq); discriminate Hq.
  - unfold safe_value, safe_integer, MAX_SAFE_INTEGER. cbn. lia.
  - unfold safe_integer, MAX_SAFE_INTEGER. cbn. lia.
Defined.

(** X4: when form ids and form titles are unique, checking a response array
    against a form by its id and by its title give the same result, down to
    the message. *)
Theorem checkQuestionsInForm_by_id_or_title
        (forms : list Form) (form : Form) (responsesArray : list Js.Object) :
  NoDup (map form_id forms) ->
  NoDup (map form_title forms) ->
  In form forms ->
  checkQuestionsInFormById forms (form_id form) responsesArray
  = checkQuestionsInFormByTitle forms (form_title form) responsesArray.
Proof.
  intros Hids Htitles Hin.
  assert (Hbyid : find (fun f => form_id f =? form_id form) forms = Some form)
    by now apply find_unique_key.
  assert (Hbytitle : find (fun f => (form_title f =? form_title form)%string) forms
                     = Some form).
  { clear Hids Hbyid. induction forms as [| a rest IH]; cbn; [destruct Hin |].
    inversion Htitles as [| k ks Hfresh Hrest]; subst.
    destruct Hin as [-> | Hin]; [now rewrite String.eqb_refl |].
    destruct (form_title a =? form_title form)%string eqn:E; [| now apply IH].
    apply String.eqb_eq in E. exfalso. apply Hfresh. rewrite E. now apply in_map. }
  rewrite (checkQuestionsInFormById_found _ _ responsesArray Hbyid).
  now rewrite (checkQuestionsInFormByTitle_found _ _ responsesArray Hbytitle).
Qed.

Lemma checkQuestionsInForm_by_id_or_title_witness :
  checkQuestionsInFormByTitle checkin_forms "Sprint Check-in"
    [ [("questionId", Js.Number 7)] ]
  = Throw (BadRequestException "Question Id 7 is not in form Sprint Check-in (id: 1)").
Proof.
  etransitivity; [symmetry | reflexivity].
  apply (checkQuestionsInForm_by_id_or_title
           checkin_forms
           {| form_id := 1; form_title := "Sprint Check-in";
              form_questions := [ {| question_id := 1 |}; {| question_id := 2 |} ] |}
           [ [("questionId", Js.Number 7)] ]).
  - repeat constructor; cbn; intuition discriminate.
  - repeat constructor; cbn; intuition discriminate.
  - now left.
Defined.

(** ** GlobalService: flattening form responses, continued *)

Lemma responseDtoToArray_from_listed (responses : FormDto) :
  well_typed responses ->
  forall acc,
    responseDtoToArray_from acc responses
    = Ok (acc ++ map responseEntry (listed_responses responses))%list.
Proof.
  induction responses as [| [index value] rest IH]; intros Hty acc.
  - cbn. now rewrite app_nil_r.
  - assert (Hrest : well_typed rest).
    { intros i x Hin. apply (Hty i x). now right. }
    cbn [responseDtoToArray_from listed_responses flat_map fst snd].
    destruct (includes responseIndex index) eqn:Hidx.
    + destruct (Hty index value (or_introl eq_refl) Hidx) as [vs ->].
      rewrite (IH Hrest). fold (listed_responses rest).
      now rewrite map_app, app_assoc.
    + rewrite (IH Hrest). reflexivity.
Qed.

Lemma responseDtoToArray_from_not_array
      (before : list (string * DtoField)) (index : string) (x : Js.Value)
      (after : list (string * DtoField)) :
  well_typed before ->
  includes responseIndex index = true ->
  forall acc,
    responseDtoToArray_from acc (before ++ (index, FieldValue x) :: after)%list
    = Throw (TypeError "responses[index].forEach is not a function").
Proof.
  intros Hty Hidx.
  induction before as [| [i value] rest IH]; intros acc.
  - cbn [app responseDtoToArray_from]. now rewrite Hidx.
  - assert (Hrest : well_typed rest).
    { intros j y Hin. apply (Hty j y). now right. }
    cbn [app responseDtoToArray_from].
    destruct (includes responseIndex i) eqn:Hi.
    + destruct (Hty i value (or_introl eq_refl) Hi) as [vs ->].
      now apply IH.
    + now apply IH.
Qed.

(** X5: on a DTO whose [response] and [responses] properties are arrays,
    [responseDtoToArray] returns one entry per listed response, in the order
    of the DTO's properties and of each array, whatever the other properties
    hold; if one of the two properties is not an array (null and undefined
    included) it throws a TypeError and nothing collected so far is
    returned. *)
Theorem responseDtoToArray_in_order (responses : FormDto) :
  (well_typed responses ->
   responseDtoToArray responses = Ok (map responseEntry (listed_responses responses)))
  /\ (forall before index x after,
         responses = (before ++ (index, FieldValue x) :: after)%list ->
         well_typed before ->
         includes responseIndex index = true ->
         exists message, responseDtoToArray responses = Throw (TypeError message)).
Proof.
  split.
  - intros Hty. unfold responseDtoToArray.
    now rewrite (responseDtoToArray_from_listed Hty).
  - intros before index x after -> Hty Hidx. unfold responseDtoToArray.
    eexists. now apply responseDtoToArray_from_not_array.
Qed.

Lemma responseDtoToArray_in_order_witness :
  responseDtoToArray sample_form
  = Ok (map responseEntry
            [ [("questionId", Js.Number 1); ("boolean", Js.Bool false)];
              [("questionId", Js.Number 2); ("numeric", Js.Number 0)];
              [("questionId", Js.Number 3); ("text", Js.Str "All good")] ])
  /\ exists message,
       responseDtoToArray [ ("response", FieldArray [ [("questionId", Js.Number 1)] ]);
                            ("responses", FieldValue (Js.Str "none")) ]
       = Throw (TypeError message).
Proof.
  split.
  - apply (proj1 (responseDtoToArray_in_order sample_form)).
    intros index value [H | [H | []]] Hidx; injection H as <- <-.
    + discriminate Hidx.
    + eexists; reflexivity.
  - apply (proj2 (responseDtoToArray_in_order _)
             [ ("response", FieldArray [ [("questionId", Js.Number 1)] ]) ]
             "responses" (Js.Str "none") []).
    + reflexivity.
    + intros index value [H | []] _. injection H as <- <-. eexists; reflexivity.
    + reflexivity.
Defined.

Lemma or_null_again (v : Js.Object) (k : string) :
  In k nullableKeys -> or_null (responseEntry v) k = or_null v k.
Proof.
  intros Hk. unfold or_null at 1. rewrite (responseEntry_nullable v Hk).
  unfold or_null. destruct (Js.truthy (Js.get v k)) eqn:E.
  - now rewrite E.
  - reflexivity.
Qed.

(** X6: flattening is a normalisation: the entry built from an entry that
    [responseDtoToArray] produced is that entry again. *)
Theorem responseEntry_idempotent (v : Js.Object) :
  responseEntry (responseEntry v) = responseEntry v.
Proof.
  unfold responseEntry at 1.
  rewrite responseEntry_questionId.
  rewrite !or_null_again by (unfold nullableKeys; cbn; auto 6).
  reflexivity.
Qed.

(** X7: flattening keeps the question ids, so for an existing form and a
    DTO whose indexed properties are arrays, [checkQuestionsInFormById] on
    the array [responseDtoToArray] returns succeeds exactly when every
    response listed in the DTO answers a question of the form. *)
Theorem checkQuestionsInFormById_after_flattening
        (forms : list Form) (formId : Z) (form : Form) (responses : FormDto) :
  find (fun f => form_id f =? formId) forms = Some form ->
  well_typed responses ->
  exists responsesArray,
    responseDtoToArray responses = Ok responsesArray
    /\ (checkQuestionsInFormById forms formId responsesArray = Ok tt
        <-> forall v, In v (listed_responses responses) -> answers form v).
Proof.
  intros Hf Hty. exists (map responseEntry (listed_responses responses)).
  split.
  - unfold responseDtoToArray. now rewrite (responseDtoToArray_from_listed Hty).
  - rewrite (checkQuestionsInFormById_found _ _ _ Hf), check_each_response.
    split.
    + intros H v Hv. destruct (H (responseEntry v) (in_map _ _ _ Hv)) as (q & Hq & Hid).
      exists q. split; [exact Hq |]. now rewrite <- responseEntry_questionId.
    + intros H w Hw. apply in_map_iff in Hw. destruct Hw as (v & <- & Hv).
      destruct (H v Hv) as (q & Hq & Hid).
      exists q. split; [exact Hq |]. now rewrite responseEntry_questionId.
Qed.

Lemma checkQuestionsInFormById_after_flattening_witness :
  exists responsesArray,
    responseDtoToArray [ ("responses", FieldArray [ [("questionId", Js.Number 2)] ]) ]
    = Ok responsesArray
    /\ checkQuestionsInFormById checkin_forms 1 responsesArray = Ok tt.
Proof.
  destruct (checkQuestionsInFormById_after_flattening
              checkin_forms 1
              (form := {| form_id := 1; form_title := "Sprint Check-in";
                          form_questions := [ {| question_id := 1 |};
                                              {| question_id := 2 |} ] |})
              (responses := [ ("responses",
                               FieldArray [ [("questionId", Js.Number 2)] ]) ]))
    as (rows & Hrows & Hcheck).
  - reflexivity.
  - intros index value [H | []] _. injection H as <- <-. eexists; reflexivity.
  - exists rows. split; [exact Hrows |]. apply Hcheck.
    intros v [<- | []]. exists {| question_id := 2 |}.
    split; [right; now left | reflexivity].
Defined.

(** ** TechsService: what the operations leave alone *)

(** Each operation reaches the store only through its storage calls. *)

Lemma updateTechStackSelections_lifts
      (P : Store -> Prop) (req : Request) (teamId : Z) (dto : UpdateTechSelectionsDto) :
  (forall id flag, preserves P (Prisma.teamTechStackItem_update id flag)) ->
  preserves P (updateTechStackSelections req teamId dto).
Proof.
  intros Hupdate. unfold updateTechStackSelections.
  apply preserves_bind;
    [apply readonly_preserves, validateSelectionCount_readonly | intros _].
  apply preserves_bind;
    [apply readonly_preserves, findVoyageMemberId_readonly | intros o].
  apply preserves_bind; [apply readonly_preserves, require_id_readonly | intros _].
  apply preserves_transaction. intros m Hin.
  apply in_map_iff in Hin. destruct Hin as (tech & <- & _). apply Hupdate.
Qed.

Lemma addNewTeamTech_lifts
      (P : Store -> Prop) (now : Z) (req : Request) (teamId : Z) (dto : CreateTeamTechDto) :
  preserves P (Prisma.teamTechStackItem_create (techName dto) (techCategoryId dto) teamId) ->
  (forall X m, preserves P (Prisma.teamTechStackItemVote_create now X m)) ->
  preserves P (addNewTeamTech now req teamId dto).
Proof.
  intros Hitem Hvote. unfold addNewTeamTech.
  apply preserves_bind;
    [apply readonly_preserves, findVoyageMemberId_readonly | intros o].
  apply preserves_bind; [apply readonly_preserves, require_id_readonly | intros m].
  apply preserves_try_catch.
  - apply preserves_bind; [exact Hitem | intros i].
    apply preserves_bind; [apply Hvote | intros v]. apply preserves_ret.
  - intros e. destruct (has_code e "P2002"); apply preserves_throw.
Qed.

Lemma addExistingTechVote_lifts
      (P : Store -> Prop) (now : Z) (req : Request) (teamId X : Z) :
  (forall m, preserves P (Prisma.teamTechStackItemVote_create now X m)) ->
  preserves P (addExistingTechVote now req teamId X).
Proof.
  intros Hvote. unfold addExistingTechVote.
  apply preserves_bind; [apply preserves_query | intros [i |]];
    [| apply preserves_throw].
  apply preserves_bind;
    [apply readonly_preserves, findVoyageMemberId_readonly | intros o].
  apply preserves_bind; [apply readonly_preserves, require_id_readonly | intros m].
  apply preserves_try_catch.
  - apply preserves_bind; [apply Hvote | intros v]. apply preserves_ret.
  - intros e. apply readonly_preserves, addExistingTechVote_catch_readonly.
Qed.

Lemma removeVote_lifts
      (P : Store -> Prop) (onDelete : ReferentialAction) (req : Request) (teamId X : Z) :
  (forall m, preserves P (Prisma.teamTechStackItemVote_delete X m)) ->
  preserves P (Prisma.teamTechStackItem_delete onDelete X) ->
  preserves P (removeVote onDelete req teamId X).
Proof.
  intros Hvote Hitem. unfold removeVote.
  apply preserves_bind;
    [apply readonly_preserves, findVoyageMemberId_readonly | intros o].
  apply preserves_bind; [apply readonly_preserves, require_id_readonly | intros m].
  apply preserves_try_catch.
  - apply preserves_bind; [apply Hvote | intros v].
    apply preserves_bind; [apply preserves_query | intros [votes |]];
      [| apply preserves_throw].
    destruct (Z.of_nat (List.length votes) =? 0); [| apply preserves_ret].
    apply preserves_bind; [exact Hitem | intros i]. apply preserves_ret.
  - intros e. apply readonly_preserves, removeVote_catch_readonly.
Qed.

(** A property that looks at the store only through [view] is kept by a call
    that does not change [view]. *)
Lemma preserves_view {A V} (view : Store -> V) (v0 : V) (m : Async A) :
  (forall s, view (fst (m s)) = view s) ->
  preserves (fun s => view s = v0) m.
Proof.
  intros Hm s s' r Hs E. specialize (Hm s). rewrite E in Hm. cbn in Hm. congruence.
Qed.

Lemma teamTechStackItem_create_reference (name : string) (categoryId teamId : Z) (s : Store) :
  reference_tables (fst (Prisma.teamTechStackItem_create name categoryId teamId s))
  = reference_tables s.
Proof.
  unfold Prisma.teamTechStackItem_create.
  destruct (existsb _ (teamTechStackItem s)); [reflexivity |].
  destruct (negb (existsb _ (voyageTeam s))); [reflexivity |].
  destruct (negb (existsb _ (techStackCategory s))); reflexivity.
Qed.

Lemma teamTechStackItem_update_reference (id : Z) (flag : bool) (s : Store) :
  reference_tables (fst (Prisma.teamTechStackItem_update id flag s)) = reference_tables s.
Proof.
  unfold Prisma.teamTechStackItem_update.
  destruct (find _ (teamTechStackItem s)); reflexivity.
Qed.

Lemma teamTechStackItem_delete_reference (onDelete : ReferentialAction) (id : Z) (s : Store) :
  reference_tables (fst (Prisma.teamTechStackItem_delete onDelete id s))
  = reference_tables s.
Proof.
  unfold Prisma.teamTechStackItem_delete.
  destruct (find _ (teamTechStackItem s)); [| reflexivity].
  destruct onDelete; [reflexivity |].
  destruct (existsb _ (teamTechStackItemVote s)); reflexivity.
Qed.

Lemma teamTechStackItemVote_create_reference (now X m : Z) (s : Store) :
  reference_tables (fst (Prisma.teamTechStackItemVote_create now X m s))
  = reference_tables s.
Proof.
  unfold Prisma.teamTechStackItemVote_create.
  destruct (existsb _ (teamTechStackItemVote s)); [reflexivity |].
  destruct (negb (existsb _ (teamTechStackItem s))); [reflexivity |].
  destruct (negb (existsb _ (voyageTeamMember s))); reflexivity.
Qed.

Lemma teamTechStackItemVote_delete_reference (X m : Z) (s : Store) :
  reference_tables (fst (Prisma.teamTechStackItemVote_delete X m s)) = reference_tables s.
Proof.
  unfold Prisma.teamTechStackItemVote_delete.
  destruct (find _ (teamTechStackItemVote s)); reflexivity.
Qed.

Lemma perform_reference_tables
      (onDelete : ReferentialAction) (op : Operation) (s : Store) :
  reference_tables (perform onDelete op s) = reference_tables s.
Proof.
  destruct op as [req t dto | now req t dto | now req t x | req t x]; cbn [perform].
  - destruct (updateTechStackSelections req t dto s) as [s' r] eqn:E.
    refine (@updateTechStackSelections_lifts
              (fun st => reference_tables st = reference_tables s) req t dto _ s s' r
              eq_refl E).
    intros id flag. apply preserves_view. apply teamTechStackItem_update_reference.
  - destruct (addNewTeamTech now req t dto s) as [s' r] eqn:E.
    refine (@addNewTeamTech_lifts
              (fun st => reference_tables st = reference_tables s) now req t dto _ _
              s s' r eq_refl E).
    + apply preserves_view. apply teamTechStackItem_create_reference.
    + intros X m. apply preserves_view. apply teamTechStackItemVote_create_reference.
  - destruct (addExistingTechVote now req t x s) as [s' r] eqn:E.
    refine (@addExistingTechVote_lifts
              (fun st => reference_tables st = reference_tables s) now req t x _
              s s' r eq_refl E).
    intros m. apply preserves_view. apply teamTechStackItemVote_create_reference.
  - destruct (removeVote onDelete req t x s) as [s' r] eqn:E.
    refine (@removeVote_lifts
              (fun st => reference_tables st = reference_tables s) onDelete req t x _ _
              s s' r eq_refl E).
    + intros m. apply preserves_view. apply teamTechStackItemVote_delete_reference.
    + apply preserves_view. apply teamTechStackItem_delete_reference.
Qed.

(** X8: whatever sequence of [updateTechStackSelections], [addNewTeamTech],
    [addExistingTechVote] and [removeVote] calls is made, returning or
    throwing, the teams, users, memberships and categories are the ones the
    store started with: the subsystem only reads them. *)
Theorem reference_tables_never_written
        (onDelete : ReferentialAction) (s0 s : Store) :
  reachable onDelete s0 s -> same_reference_tables s0 s.
Proof.
  intros Hr.
  assert (H : reference_tables s = reference_tables s0).
  { induction Hr as [| s op Hr IH]; [reflexivity |].
    now rewrite perform_reference_tables. }
  unfold reference_tables in H. injection H as H1 H2 H3 H4.
  unfold same_reference_tables. auto.
Qed.

Lemma reference_tables_never_written_witness :
  same_reference_tables seed (fold_left (fun st op => perform Cascade op st) history seed).
Proof.
  apply (reference_tables_never_written (onDelete := Cascade)).
  apply reachable_history. constructor.
Defined.

Lemma filter_filter_implied {A} (p q : A -> bool) (xs : list A) :
  (forall x, p x = true -> q x = true) ->
  filter p (filter q xs) = filter p xs.
Proof.
  intros Hpq. induction xs as [| a xs IH]; cbn; [reflexivity |].
  destruct (q a) eqn:Eq; cbn.
  - destruct (p a); now rewrite IH.
  - destruct (p a) eqn:Ep; [| exact IH].
    rewrite (Hpq a Ep) in Eq. discriminate.
Qed.

Lemma other_items_votes_not_for (X m : Z) (v : TeamTechStackItemVote) :
  negb (Prisma.votes_for X v) = true -> negb (Prisma.is_vote X m v) = true.
Proof.
  unfold Prisma.is_vote, Prisma.votes_for.
  destruct (ttv_teamTechId v =? X); [discriminate | reflexivity].
Qed.

Lemma outside_view_vote_delete (X m : Z) (s : Store) :
  (filter (fun i => negb (Prisma.is_item X i))
          (teamTechStackItem (fst (Prisma.teamTechStackItemVote_delete X m s))),
   filter (fun v => negb (Prisma.votes_for X v))
          (teamTechStackItemVote (fst (Prisma.teamTechStackItemVote_delete X m s))))
  = (filter (fun i => negb (Prisma.is_item X i)) (teamTechStackItem s),
     filter (fun v => negb (Prisma.votes_for X v)) (teamTechStackItemVote s)).
Proof.
  unfold Prisma.teamTechStackItemVote_delete.
  destruct (find _ (teamTechStackItemVote s)); [| reflexivity].
  cbn. f_equal. apply filter_filter_implied. apply other_items_votes_not_for.
Qed.

Lemma outside_view_item_delete (onDelete : ReferentialAction) (X : Z) (s : Store) :
  (filter (fun i => negb (Prisma.is_item X i))
          (teamTechStackItem (fst (Prisma.teamTechStackItem_delete onDelete X s))),
   filter (fun v => negb (Prisma.votes_for X v))
          (teamTechStackItemVote (fst (Prisma.teamTechStackItem_delete onDelete X s))))
  = (filter (fun i => negb (Prisma.is_item X i)) (teamTechStackItem s),
     filter (fun v => negb (Prisma.votes_for X v)) (teamTechStackItemVote s)).
Proof.
  unfold Prisma.teamTechStackItem_delete.
  destruct (find _ (teamTechStackItem s)); [| reflexivity].
  destruct onDelete.
  - cbn. f_equal; apply filter_filter_implied; auto.
  - destruct (existsb _ (teamTechStackItemVote s)); [reflexivity |].
    cbn. f_equal. apply filter_filter_implied; auto.
Qed.

Lemma outside_view_vote_create (now X m : Z) (s : Store) :
  (filter (fun i => negb (Prisma.is_item X i))
          (teamTechStackItem (fst (Prisma.teamTechStackItemVote_create now X m s))),
   filter (fun v => negb (Prisma.votes_for X v))
          (teamTechStackItemVote (fst (Prisma.teamTechStackItemVote_create now X m s))))
  = (filter (fun i => negb (Prisma.is_item X i)) (teamTechStackItem s),
     filter (fun v => negb (Prisma.votes_for X v)) (teamTechStackItemVote s)).
Proof.
  unfold Prisma.teamTechStackItemVote_create.
  destruct (existsb _ (teamTechStackItemVote s)); [reflexivity |].
  destruct (negb (existsb _ (teamTechStackItem s))); [reflexivity |].
  destruct (negb (existsb _ (voyageTeamMember s))); [reflexivity |].
  cbn. f_equal. rewrite filter_app. cbn. unfold Prisma.votes_for at 2. cbn.
  rewrite Z.eqb_refl. cbn. apply app_nil_r.
Qed.

(** X9: voting for item [X] or removing a vote from it, whether the call
    returns or throws, changes no other item and no vote of another item:
    the items other than [X] and the votes of items other than [X] are the
    same lists before and after. *)
Theorem votes_touch_one_item
        (onDelete : ReferentialAction) (now : Z) (req : Request) (teamId X : Z) (s : Store) :
  same_outside X s (fst (removeVote onDelete req teamId X s))
  /\ same_outside X s (fst (addExistingTechVote now req teamId X s)).
Proof.
  pose (view := fun st : Store =>
                  (filter (fun i => negb (Prisma.is_item X i)) (teamTechStackItem st),
                   filter (fun v => negb (Prisma.votes_for X v))
                          (teamTechStackItemVote st))).
  assert (Hsplit : forall st, view st = view s -> same_outside X s st).
  { intros st H. unfold view in H. injection H as H1 H2. now split. }
  split; apply Hsplit.
  - destruct (removeVote onDelete req teamId X s) as [s' r] eqn:E.
    refine (@removeVote_lifts (fun st => view st = view s) onDelete req teamId X _ _
                              s s' r eq_refl E).
    + intros m. apply preserves_view. intros st. apply outside_view_vote_delete.
    + apply preserves_view. intros st. apply outside_view_item_delete.
  - destruct (addExistingTechVote now req teamId X s) as [s' r] eqn:E.
    refine (@addExistingTechVote_lifts (fun st => view st = view s) now req teamId X _
                                       s s' r eq_refl E).
    intros m. apply preserves_view. intros st. apply outside_view_vote_create.
Qed.

(** ** TechsService: failures and round trips *)

Lemma removeVote_no_member
      (onDelete : ReferentialAction) (s : Store) (req : Request) (teamId X : Z) :
  findVoyageMemberId req teamId s = (s, Ok None) ->
  removeVote onDelete req teamId X s = (s, Throw (BadRequestException "Invalid User")).
Proof. intros H. unfold removeVote, bind. now rewrite H. Qed.

Lemma removeVote_no_vote
      (onDelete : ReferentialAction) (s : Store) (req : Request) (teamId X m : Z) :
  integrity s ->
  resolves s req teamId m ->
  find (Prisma.is_vote X m) (teamTechStackItemVote s) = None ->
  removeVote onDelete req teamId X s
  = (s, Throw (NotFoundException "Record to delete does not exist.")).
Proof.
  intros I Hres Hnone. unfold removeVote, bind.
  rewrite Hres, (resolves_require _ I Hres).
  unfold try_catch, bind. now rewrite (teamTechStackItemVote_delete_missing _ _ _ Hnone).
Qed.

Lemma no_vote_find (X m : Z) (votes : list TeamTechStackItemVote) :
  (forall v, In v votes -> vote_key v <> (X, m)) ->
  find (Prisma.is_vote X m) votes = None.
Proof.
  intros Hnone. destruct (find (Prisma.is_vote X m) votes) as [v |] eqn:Hf;
    [| reflexivity].
  apply find_some in Hf. destruct Hf as [Hin Hv]. apply is_vote_key in Hv.
  now destruct (Hnone v Hin).
Qed.

Lemma find_vote_exists (X m : Z) (votes : list TeamTechStackItemVote)
      (v : TeamTechStackItemVote) :
  find (Prisma.is_vote X m) votes = Some v ->
  exists w, In w votes /\ vote_key w = (X, m).
Proof.
  intros Hf. apply find_some in Hf. destruct Hf as [Hin Hv].
  exists v. split; [exact Hin | now apply is_vote_key].
Qed.

(** On a consistent store [removeVote] either throws and leaves the store as
    it was, or returns. *)
Lemma removeVote_cases
      (onDelete : ReferentialAction) (s : Store) (req : Request) (teamId X : Z) :
  integrity s ->
  (exists e, removeVote onDelete req teamId X s = (s, Throw e))
  \/ (exists m r,
         resolves s req teamId m
         /\ (exists v, In v (teamTechStackItemVote s) /\ vote_key v = (X, m))
         /\ snd (removeVote onDelete req teamId X s) = Ok r
         /\ teamTechStackItemVote (fst (removeVote onDelete req teamId X s))
            = remaining s X m
         /\ reference_tables (fst (removeVote onDelete req teamId X s))
            = reference_tables s).
Proof.
  intros I. pose proof (findVoyageMemberId_result req teamId s) as Hfind.
  destruct (option_map vtm_id _) as [m |] eqn:Hm.
  - destruct (find (Prisma.is_vote X m) (teamTechStackItemVote s)) as [v |] eqn:Hv.
    + right. pose proof (find_vote_exists _ _ _ Hv) as Hvote.
      pose proof (remaining_count I Hvote) as Hrem.
      destruct (voteCount s X) as [| [| n]] eqn:Hc; [lia | |].
      * exists m, vote_and_item_deleted. split; [exact Hfind |]. split; [exact Hvote |].
        rewrite (removeVote_last_vote onDelete I Hfind Hvote Hc). auto.
      * exists m, vote_deleted. split; [exact Hfind |]. split; [exact Hvote |].
        rewrite (removeVote_other_votes onDelete I Hfind Hvote); [auto | lia].
    + left. eexists. now apply removeVote_no_vote with (m := m).
  - left. eexists. now apply removeVote_no_member.
Qed.

Lemma addExistingTechVote_throws_unchanged
      (now : Z) (req : Request) (teamId X : Z) (s s' : Store) (e : Exception) :
  addExistingTechVote now req teamId X s = (s', Throw e) -> s' = s.
Proof.
  unfold addExistingTechVote, bind, Prisma.teamTechStackItem_findUnique, query.
  destruct (find (Prisma.is_item X) (teamTechStackItem s));
    [| intros H; now injection H as <- _].
  rewrite findVoyageMemberId_result.
  destruct (option_map vtm_id _) as [m |]; [| intros H; now injection H as <- _].
  unfold require_id. destruct (m =? 0); [intros H; now injection H as <- _ |].
  unfold ret at 1. unfold try_catch, bind, Prisma.teamTechStackItemVote_create.
  destruct (existsb (Prisma.is_vote X m) _); [intros H; now injection H as <- _ |].
  destruct (negb (existsb (Prisma.is_item X) _)); [intros H; now injection H as <- _ |].
  destruct (negb (existsb (Prisma.is_member m) _)); [intros H; now injection H as <- _ |].
  intros H. discriminate H.
Qed.

(** X11: on a consistent store, a member's [removeVote] for an item they
    have not voted for (or that does not exist) throws NotFound with the
    storage engine's cause and changes nothing. *)
Theorem removeVote_without_vote
        (onDelete : ReferentialAction) (s : Store) (req : Request) (teamId X m : Z) :
  integrity s ->
  resolves s req teamId m ->
  (forall v, In v (teamTechStackItemVote s) -> vote_key v <> (X, m)) ->
  removeVote onDelete req teamId X s
  = (s, Throw (NotFoundException "Record to delete does not exist.")).
Proof.
  intros I Hres Hnone.
  apply removeVote_no_vote with (m := m); [exact I | exact Hres |].
  now apply no_vote_find.
Qed.

Lemma removeVote_without_vote_witness :
  removeVote Cascade bob 1 1 one_vote
  = (one_vote, Throw (NotFoundException "Record to delete does not exist.")).
Proof.
  apply (removeVote_without_vote Cascade one_vote_integrity (m := 2)).
  - reflexivity.
  - intros v [<- | []]. discriminate.
Defined.

(** X12: on a consistent store, whenever one of the four operations throws,
    whatever the exception, the store is exactly the one the call was given:
    no failed call leaves a partial write. *)
Theorem failed_call_changes_nothing
        (onDelete : ReferentialAction) (s : Store) (req : Request) (teamId : Z) :
  integrity s ->
  (forall dto s' e,
      updateTechStackSelections req teamId dto s = (s', Throw e) -> s' = s)
  /\ (forall now dto s' e,
         addNewTeamTech now req teamId dto s = (s', Throw e) -> s' = s)
  /\ (forall now X s' e,
         addExistingTechVote now req teamId X s = (s', Throw e) -> s' = s)
  /\ (forall X s' e,
         removeVote onDelete req teamId X s = (s', Throw e) -> s' = s).
Proof.
  intros I. split; [| split; [| split]].
  - intros dto s' e H.
    destruct (updateTechStackSelections_cases s req teamId dto) as [[l Hl] | [e' He]].
    + rewrite Hl in H. discriminate H.
    + rewrite He in H. now injection H as <- _.
  - intros now dto s' e H.
    destruct (addNewTeamTech_cases now req teamId dto I) as [[e' He] | (m & _ & Hm)].
    + rewrite He in H. now injection H as <- _.
    + rewrite Hm in H. discriminate H.
  - intros now X s' e H. exact (addExistingTechVote_throws_unchanged _ _ _ _ _ H).
  - intros X s' e H.
    destruct (removeVote_cases onDelete req teamId X I)
      as [[e' He] | (m & r & _ & _ & Hr & _)].
    + rewrite He in H. now injection H as <- _.
    + rewrite H in Hr. discriminate Hr.
Qed.

Lemma failed_call_changes_nothing_witness :
  fst (addExistingTechVote 300 bob 1 1 two_votes) = two_votes.
Proof.
  destruct (failed_call_changes_nothing Cascade bob 1 two_votes_integrity)
    as (_ & _ & H & _).
  apply (H 300 1 (fst (addExistingTechVote 300 bob 1 1 two_votes))
           (ConflictException "User has already voted for techId:1")).
  reflexivity.
Defined.

Lemma find_filter_negb {A} (p : A -> bool) (xs : list A) :
  find p (filter (fun x => negb (p x)) xs) = None.
Proof.
  induction xs as [| a xs IH]; cbn; [reflexivity |].
  destruct (p a) eqn:E; cbn; [exact IH |]. now rewrite E.
Qed.

Lemma resolves_same_members (s s' : Store) (req : Request) (teamId m : Z) :
  reference_tables s' = reference_tables s ->
  resolves s req teamId m -> resolves s' req teamId m.
Proof.
  unfold reference_tables, resolves. intros H Hres. injection H as _ _ Hm _.
  rewrite findVoyageMemberId_result in *. rewrite Hm.
  injection Hres as Hres. now rewrite Hres.
Qed.

(** X13: on a consistent store, once a member's [removeVote] for an item
    has returned, the same call again throws NotFound and changes nothing. *)
Theorem removeVote_twice
        (onDelete : ReferentialAction) (s : Store) (req : Request) (teamId X : Z)
        (s1 : Store) (r : MessageResponse) :
  integrity s ->
  removeVote onDelete req teamId X s = (s1, Ok r) ->
  removeVote onDelete req teamId X s1
  = (s1, Throw (NotFoundException "Record to delete does not exist.")).
Proof.
  intros I H.
  pose proof (removeVote_integrity onDelete req teamId X I H) as I1.
  destruct (removeVote_cases onDelete req teamId X I)
    as [[e He] | (m & r' & Hres & _ & _ & Hvotes & Href)].
  - rewrite He in H. discriminate H.
  - rewrite H in Hvotes, Href. cbn [fst] in Hvotes, Href.
    apply removeVote_no_vote with (m := m); [exact I1 | |].
    + now apply resolves_same_members with (s := s).
    + rewrite Hvotes. unfold remaining. apply find_filter_negb.
Qed.

Lemma removeVote_twice_witness :
  removeVote Cascade alice 1 1 (fst (removeVote Cascade alice 1 1 two_votes))
  = (fst (removeVote Cascade alice 1 1 two_votes),
     Throw (NotFoundException "Record to delete does not exist.")).
Proof.
  apply (removeVote_twice Cascade alice 1 1 (r := vote_deleted) two_votes_integrity).
  reflexivity.
Defined.

Lemma addExistingTechVote_created
      (now : Z) (s : Store) (req : Request) (teamId X m : Z) :
  integrity s ->
  resolves s req teamId m ->
  existsb (Prisma.is_item X) (teamTechStackItem s) = true ->
  existsb (Prisma.is_vote X m) (teamTechStackItemVote s) = false ->
  addExistingTechVote now req teamId X s
  = (with_votes s
       (teamTechStackItemVote s
          ++ [ {| ttv_id := voteSeq s; ttv_teamTechId := X; ttv_teamMemberId := m;
                  ttv_createdAt := now; ttv_updatedAt := now |} ])
       (voteSeq s + 1),
     Ok {| teamTechStackItemVoteId := voteSeq s; teamTechId := X; teamMemberId := m;
           createdAt := now; updatedAt := now |}).
Proof.
  intros I Hres Hitem Hnew.
  destruct (existsb_find_some _ _ Hitem) as [i Hi].
  unfold addExistingTechVote, bind, Prisma.teamTechStackItem_findUnique, query.
  rewrite Hi, Hres, (resolves_require _ I Hres).
  unfold try_catch, bind, Prisma.teamTechStackItemVote_create.
  rewrite Hnew, Hitem, (resolved_member_exists Hres). reflexivity.
Qed.

Lemma filter_keeps_all {A} (p : A -> bool) (xs : list A) :
  (forall x, In x xs -> p x = true) -> filter p xs = xs.
Proof.
  induction xs as [| a xs IH]; cbn; intros H; [reflexivity |].
  rewrite (H a (or_introl eq_refl)). f_equal. apply IH. intros x Hx. apply H. now right.
Qed.

Lemma existsb_false_filter {A} (p : A -> bool) (xs : list A) :
  existsb p xs = false -> filter p xs = [].
Proof.
  induction xs as [| a xs IH]; cbn; [reflexivity |].
  destruct (p a); cbn; [discriminate | exact IH].
Qed.

Lemma voted_count (s : Store) (X : Z) : voted s X -> (1 <= voteCount s X)%nat.
Proof.
  intros (v & Hin & Hid). unfold voteCount.
  assert (Hf : In v (filter (Prisma.votes_for X) (teamTechStackItemVote s))).
  { apply filter_In. split; [exact Hin |]. unfold Prisma.votes_for. now apply Z.eqb_eq. }
  destruct (filter _ _); [destruct Hf | cbn; lia].
Qed.

(** X14: on a consistent store, when a member votes for an existing item
    that already has a vote and then removes that vote, both calls return and
    the items and the votes are again exactly those before the two calls. *)
Theorem addExistingTechVote_then_removeVote
        (onDelete : ReferentialAction) (now : Z) (s : Store) (req : Request)
        (teamId X m : Z) :
  integrity s ->
  resolves s req teamId m ->
  (exists i, In i (teamTechStackItem s) /\ tti_id i = X) ->
  (forall v, In v (teamTechStackItemVote s) -> vote_key v <> (X, m)) ->
  voted s X ->
  let voted_store := fst (addExistingTechVote now req teamId X s) in
  let out := removeVote onDelete req teamId X voted_store in
  (exists vote, snd (addExistingTechVote now req teamId X s) = Ok vote)
  /\ snd out = Ok {| message := "This vote was deleted"; statusCode := 200 |}
  /\ teamTechStackItem (fst out) = teamTechStackItem s
  /\ teamTechStackItemVote (fst out) = teamTechStackItemVote s.
Proof.
  intros I Hres (i & Hi & Hid) Hnone Hvoted voted_store out.
  assert (Hitem : existsb (Prisma.is_item X) (teamTechStackItem s) = true).
  { apply existsb_exists. exists i. split; [exact Hi |].
    unfold Prisma.is_item. now apply Z.eqb_eq. }
  assert (Hnew : existsb (Prisma.is_vote X m) (teamTechStackItemVote s) = false).
  { apply find_none_existsb. now apply no_vote_find. }
  pose proof (@addExistingTechVote_created now s req teamId X m I Hres Hitem Hnew) as Hadd.
  destruct (addExistingTechVote now req teamId X s) as [s1 r1] eqn:E.
  pose proof (addExistingTechVote_integrity now req teamId X I E) as I1.
  injection Hadd as Hs1 Hr1. subst voted_store. cbn [fst snd] in *.
  split; [eexists; exact Hr1 |].
  assert (Hres1 : resolves s1 req teamId m).
  { apply resolves_same_members with (s := s); [now rewrite Hs1 | exact Hres]. }
  assert (Hvote1 : exists v, In v (teamTechStackItemVote s1) /\ vote_key v = (X, m)).
  { rewrite Hs1. eexists. split; [cbn; apply in_or_app; right; now left | reflexivity]. }
  assert (Hcount : (2 <= voteCount s1 X)%nat).
  { pose proof (voted_count Hvoted) as Hone. unfold voteCount in *. rewrite Hs1. cbn.
    rewrite filter_app, length_app. cbn. unfold Prisma.votes_for at 2. cbn.
    rewrite Z.eqb_refl. cbn. lia. }
  subst out. rewrite (removeVote_other_votes onDelete I1 Hres1 Hvote1 Hcount).
  cbn [fst snd]. split; [reflexivity |].
  unfold remaining. rewrite Hs1. cbn. split; [reflexivity |].
  rewrite filter_app. cbn. unfold Prisma.is_vote at 2. cbn. rewrite !Z.eqb_refl. cbn.
  rewrite app_nil_r. apply filter_keeps_all.
  intros v Hv. apply negb_true_iff. exact (existsb_false_In _ _ v Hnew Hv).
Qed.

Lemma addExistingTechVote_then_removeVote_witness :
  teamTechStackItemVote
    (fst (removeVote Cascade bob 1 1 (fst (addExistingTechVote 200 bob 1 1 one_vote))))
  = teamTechStackItemVote one_vote.
Proof.
  apply (addExistingTechVote_then_removeVote Cascade 200 (m := 2) one_vote_integrity).
  - reflexivity.
  - eexists. split; [left; reflexivity | reflexivity].
  - intros v [<- | []]. discriminate.
  - eexists. split; [left; reflexivity | reflexivity].
Defined.

Lemma no_votes_for_next_item (s : Store) :
  integrity s ->
  existsb (Prisma.votes_for (itemSeq s)) (teamTechStackItemVote s) = false.
Proof.
  intros I. destruct (existsb _ _) eqn:E; [| reflexivity].
  apply existsb_exists in E. destruct E as (v & Hin & Hv).
  unfold Prisma.votes_for in Hv. apply Z.eqb_eq in Hv.
  pose proof (vote_item_exists I v Hin) as Hex. apply existsb_exists in Hex.
  destruct Hex as (i & Hi & Hid). unfold Prisma.is_item in Hid. apply Z.eqb_eq in Hid.
  pose proof (item_ids_below_seq I i Hi). lia.
Qed.

(** X15: on a consistent store, when a proposal has returned and its author
    removes their vote from the new item, the call reports that the vote and
    the item were deleted, and the items and the votes are again exactly
    those before the proposal. *)
Theorem addNewTeamTech_then_removeVote
        (onDelete : ReferentialAction) (now : Z) (s : Store) (req : Request)
        (teamId : Z) (dto : CreateTeamTechDto) (s1 : Store) (r : VoteResponse) :
  integrity s ->
  addNewTeamTech now req teamId dto s = (s1, Ok r) ->
  let out := removeVote onDelete req teamId (teamTechId r) s1 in
  snd out = Ok {| message := "The vote and tech stack item were deleted";
                  statusCode := 200 |}
  /\ teamTechStackItem (fst out) = teamTechStackItem s
  /\ teamTechStackItemVote (fst out) = teamTechStackItemVote s.
Proof.
  intros I H out.
  pose proof (addNewTeamTech_integrity now req teamId dto I H) as I1.
  destruct (addNewTeamTech_cases now req teamId dto I) as [[e He] | (m & Hres & Hm)];
    [rewrite He in H; discriminate H |].
  rewrite Hm in H. injection H as Hs1 Hr. subst r. cbn [teamTechId] in out.
  assert (Hres1 : resolves s1 req teamId m).
  { apply resolves_same_members with (s := s); [now rewrite <- Hs1 | exact Hres]. }
  assert (Hvote1 : exists v, In v (teamTechStackItemVote s1)
                             /\ vote_key v = (itemSeq s, m)).
  { rewrite <- Hs1. exists (first_vote s now m).
    split; [cbn; apply in_or_app; right; now left | reflexivity]. }
  pose proof (no_votes_for_next_item I) as Hfresh.
  assert (Hcount : voteCount s1 (itemSeq s) = 1%nat).
  { unfold voteCount. rewrite <- Hs1. cbn. rewrite filter_app.
    rewrite (existsb_false_filter _ _ Hfresh). cbn.
    unfold Prisma.votes_for. cbn. now rewrite Z.eqb_refl. }
  subst out. rewrite (removeVote_last_vote onDelete I1 Hres1 Hvote1 Hcount).
  cbn [fst snd teamTechStackItem teamTechStackItemVote with_items with_votes].
  split; [reflexivity |]. rewrite <- Hs1. cbn. split.
  - rewrite filter_app. cbn. unfold Prisma.is_item at 2. cbn. rewrite Z.eqb_refl. cbn.
    rewrite app_nil_r. apply filter_keeps_all.
    intros i Hi. apply negb_true_iff. unfold Prisma.is_item. apply Z.eqb_neq.
    pose proof (item_ids_below_seq I i Hi). lia.
  - unfold remaining. cbn. rewrite filter_app. cbn.
    unfold Prisma.is_vote at 2. cbn. rewrite !Z.eqb_refl. cbn.
    rewrite app_nil_r. apply filter_keeps_all.
    intros v Hv. apply negb_true_iff.
    pose proof (existsb_false_In _ _ v Hfresh Hv) as Hx.
    unfold Prisma.is_vote. unfold Prisma.votes_for in Hx. now rewrite Hx.
Qed.

Lemma addNewTeamTech_then_removeVote_witness :
  teamTechStackItem (fst (removeVote Restrict alice 1 1 one_vote)) = []
  /\ teamTechStackItemVote (fst (removeVote Restrict alice 1 1 one_vote)) = [].
Proof.
  destruct (addNewTeamTech_then_removeVote
              Restrict 100 alice 1 {| techName := "React"; techCategoryId := 1 |}
              (s1 := one_vote)
              (r := {| teamTechStackItemVoteId := 1; teamTechId := 1; teamMemberId := 1;
                       createdAt := 100; updatedAt := 100 |})
              seed_integrity eq_refl)
    as (_ & Hitems & Hvotes).
  split; [exact Hitems | exact Hvotes].
Defined.

(** X16: on a consistent store, once a proposal has returned, proposing the
    same name for the same team and category again, by any member of the
    team and at any time, throws Conflict and changes nothing. *)
Theorem addNewTeamTech_twice
        (now : Z) (s : Store) (req : Request) (teamId : Z) (dto : CreateTeamTechDto)
        (s1 : Store) (r : VoteResponse) :
  integrity s ->
  addNewTeamTech now req teamId dto s = (s1, Ok r) ->
  forall later req' m',
    resolves s1 req' teamId m' ->
    addNewTeamTech later req' teamId dto s1
    = (s1, Throw (ConflictException
                    (techName dto ++ " already exists in the available team tech stack."))).
Proof.
  intros I H later req' m' Hres'.
  pose proof (addNewTeamTech_integrity now req teamId dto I H) as I1.
  destruct (addNewTeamTech_cases now req teamId dto I) as [[e He] | (m & Hres & Hm)];
    [rewrite He in H; discriminate H |].
  rewrite Hm in H. injection H as Hs1 _.
  apply (addNewTeamTech_duplicate later dto I1 Hres').
  rewrite <- Hs1. exists (new_item s teamId dto).
  split; [cbn; apply in_or_app; right; now left |]. repeat split.
Qed.

Lemma addNewTeamTech_twice_witness :
  addNewTeamTech 500 bob 1 {| techName := "React"; techCategoryId := 1 |} one_vote
  = (one_vote,
     Throw (ConflictException "React already exists in the available team tech stack.")).
Proof.
  apply (@addNewTeamTech_twice
           100 seed alice 1 {| techName := "React"; techCategoryId := 1 |} one_vote
           {| teamTechStackItemVoteId := 1; teamTechId := 1; teamMemberId := 1;
              createdAt := 100; updatedAt := 100 |}
           seed_integrity eq_refl 500 bob 2).
  reflexivity.
Defined.

(** ** TechsService: more on selections *)

Lemma sequence_updates_missing (batch : list TechSelection) :
  forall s,
    (exists t, In t batch
               /\ existsb (Prisma.is_item (techId t)) (teamTechStackItem s) = false) ->
    exists s', Prisma.sequence (queued batch) s
               = (s', Throw (PrismaClientKnownRequestError
                               "P2025" "Record to update not found.")).
Proof.
  induction batch as [| t ts IH]; intros s (u & Hin & Hu); [destruct Hin |].
  rewrite queued_cons. unfold bind at 1. unfold Prisma.teamTechStackItem_update.
  destruct (find (Prisma.is_item (techId t)) (teamTechStackItem s)) as [i |] eqn:Hf.
  - destruct (IH (with_items s (map (Prisma.set_selected (techId t) (isSelected t))
                                    (teamTechStackItem s)) (itemSeq s))) as [s' Hs'].
    + destruct Hin as [<- | Hin].
      * apply find_some_existsb in Hf. congruence.
      * exists u. split; [exact Hin |]. cbn.
        now rewrite (existsb_is_item_ids _ (teamTechStackItem s)
                       (map (Prisma.set_selected (techId t) (isSelected t))
                            (teamTechStackItem s)) (set_selected_ids _ _ _)).
    + exists s'. cbv beta iota. unfold bind. now rewrite Hs'.
  - eexists. reflexivity.
Qed.

(** X17: when a member's request passes the cap check but lists a tech id
    that no item has, [updateTechStackSelections] throws the storage engine's
    P2025 error as it is, and no flag is changed, not even by the entries
    that come before the missing one. *)
Theorem updateTechStackSelections_unknown_tech
        (s : Store) (req : Request) (teamId m : Z) (dto : UpdateTechSelectionsDto) :
  integrity s ->
  resolves s req teamId m ->
  validateSelectionCount (categories dto) s = (s, Ok tt) ->
  (exists t, In t (techsArray (categories dto))
             /\ forall i, In i (teamTechStackItem s) -> tti_id i <> techId t) ->
  updateTechStackSelections req teamId dto s
  = (s, Throw (PrismaClientKnownRequestError "P2025" "Record to update not found.")).
Proof.
  intros I Hres Hval (t & Hin & Hnone).
  assert (Hmissing : existsb (Prisma.is_item (techId t)) (teamTechStackItem s) = false).
  { destruct (existsb _ _) eqn:E; [| reflexivity].
    apply existsb_exists in E. destruct E as (i & Hi & Hid).
    unfold Prisma.is_item in Hid. apply Z.eqb_eq in Hid. now destruct (Hnone i Hi). }
  destruct (sequence_updates_missing (techsArray (categories dto)) s) as [s' Hs'];
    [now exists t |].
  unfold updateTechStackSelections, bind.
  rewrite Hval, Hres, (resolves_require _ I Hres).
  unfold Prisma.transaction. fold (queued (techsArray (categories dto))).
  now rewrite Hs'.
Qed.

Lemma updateTechStackSelections_unknown_tech_witness :
  updateTechStackSelections
    alice 1
    {| categories := [ {| categoryId := 1;
                          techs := [ {| techId := 1; isSelected := true |};
                                     {| techId := 9; isSelected := true |} ] |} ] |}
    one_vote
  = (one_vote, Throw (PrismaClientKnownRequestError "P2025" "Record to update not found.")).
Proof.
  apply (@updateTechStackSelections_unknown_tech one_vote alice 1 1 _ one_vote_integrity).
  - reflexivity.
  - reflexivity.
  - exists {| techId := 9; isSelected := true |}.
    split; [right; now left |]. intros i [<- | []]. discriminate.
Defined.

Lemma final_flag_again (batch : list TechSelection) (j : TeamTechStackItem) :
  final_flag batch (with_flag j (final_flag batch j)) = final_flag batch j.
Proof.
  unfold final_flag. cbn. destruct (lastRequested batch (tti_id j)); reflexivity.
Qed.

Lemma apply_batch_idempotent (batch : list TechSelection) (items : list TeamTechStackItem) :
  apply_batch batch (apply_batch batch items) = apply_batch batch items.
Proof.
  rewrite !apply_batch_flags, map_map. apply map_ext. intros j.
  now rewrite final_flag_again.
Qed.

(** X18: [updateTechStackSelections] is idempotent on the store: sending
    the same request a second time, whether the calls return or throw, leaves
    the store as the first call left it. *)
Theorem updateTechStackSelections_idempotent
        (s : Store) (req : Request) (teamId : Z) (dto : UpdateTechSelectionsDto) :
  fst (updateTechStackSelections req teamId dto
         (fst (updateTechStackSelections req teamId dto s)))
  = fst (updateTechStackSelections req teamId dto s).
Proof.
  destruct (updateTechStackSelections_cases s req teamId dto) as [[l Hl] | [e He]].
  - rewrite Hl. cbn [fst]. set (s1 := with_items s _ (itemSeq s)).
    destruct (updateTechStackSelections_cases s1 req teamId dto) as [[l' ->] | [e ->]];
      cbn [fst]; [| reflexivity].
    subst s1. cbn. now rewrite apply_batch_idempotent.
  - rewrite He. cbn [fst]. now rewrite He.
Qed.

Lemma validateSelectionCount_no_techs (cats : list TechCategorySelection) (s : Store) :
  techsArray cats = [] -> validateSelectionCount cats s = (s, Ok tt).
Proof.
  intros Hnone. apply validateSelectionCount_within. intros category Hin.
  assert (Hempty : techs category = []).
  { unfold techsArray in Hnone. induction cats as [| c rest IH]; [destruct Hin |].
    cbn in Hnone. apply app_eq_nil in Hnone. destruct Hnone as [Hc Hrest].
    destruct Hin as [<- | Hin]; [exact Hc | now apply IH]. }
  unfold selectCount. rewrite Hempty. cbn. unfold MAX_SELECTION_COUNT. lia.
Qed.

(** X19: a member's request that lists no tech at all (no category, or only
    empty ones) returns the empty list and leaves the store as it was. *)
Theorem updateTechStackSelections_nothing_listed
        (s : Store) (req : Request) (teamId m : Z) (dto : UpdateTechSelectionsDto) :
  integrity s ->
  resolves s req teamId m ->
  techsArray (categories dto) = [] ->
  updateTechStackSelections req teamId dto s = (s, Ok []).
Proof.
  intros I Hres Hnone. unfold updateTechStackSelections, bind.
  rewrite (validateSelectionCount_no_techs _ s Hnone), Hres, (resolves_require _ I Hres).
  now rewrite Hnone.
Qed.

Lemma updateTechStackSelections_nothing_listed_witness :
  updateTechStackSelections
    bob 1 {| categories := [ {| categoryId := 1; techs := [] |};
                             {| categoryId := 2; techs := [] |} ] |} two_votes
  = (two_votes, Ok []).
Proof.
  apply (@updateTechStackSelections_nothing_listed two_votes bob 1 2 _ two_votes_integrity);
    reflexivity.
Defined.

Lemma selectCount_from (techs : list TechSelection) :
  forall acc,
    fold_left (fun a tech => a + (if isSelected tech then 1 else 0)) techs acc
    = acc + Z.of_nat (List.length (filter isSelected techs)).
Proof.
  induction techs as [| t rest IH]; intros acc; cbn [fold_left filter].
  - cbn. lia.
  - rewrite IH. destruct (isSelected t); cbn [List.length]; lia.
Qed.

Lemma selectCount_counts (category : TechCategorySelection) :
  selectCount category = Z.of_nat (List.length (filter isSelected (techs category))).
Proof. unfold selectCount. rewrite selectCount_from. lia. Qed.

(** X20: the cap check passes exactly when no category of the request has
    more than three entries with [isSelected] true; in particular a category
    that lists at most three techs can never fail it. *)
Theorem validateSelectionCount_counts_selected
        (cats : list TechCategorySelection) (s : Store) :
  (validateSelectionCount cats s = (s, Ok tt)
   <-> forall category, In category cats ->
                        (List.length (filter isSelected (techs category)) <= 3)%nat)
  /\ ((forall category, In category cats -> (List.length (techs category) <= 3)%nat) ->
      validateSelectionCount cats s = (s, Ok tt)).
Proof.
  assert (Hiff : validateSelectionCount cats s = (s, Ok tt)
                 <-> forall category, In category cats ->
                       (List.length (filter isSelected (techs category)) <= 3)%nat).
  { split.
    - intros Hok category Hin.
      destruct (Nat.le_gt_cases (List.length (filter isSelected (techs category))) 3)
        as [Hle | Hgt]; [exact Hle |].
      rewrite (@validateSelectionCount_over cats s) in Hok; [discriminate Hok |].
      exists category. split; [exact Hin |].
      rewrite selectCount_counts. unfold MAX_SELECTION_COUNT. lia.
    - intros Hall. apply validateSelectionCount_within. intros category Hin.
      rewrite selectCount_counts. unfold MAX_SELECTION_COUNT.
      specialize (Hall category Hin). lia. }
  split; [exact Hiff |].
  intros Hshort. apply Hiff. intros category Hin.
  pose proof (filter_length_le isSelected (techs category)) as Hle.
  specialize (Hshort category Hin). lia.
Qed.

Lemma validateSelectionCount_techs_only (cats cats' : list TechCategorySelection) (s : Store) :
  map techs cats = map techs cats' ->
  validateSelectionCount cats s = validateSelectionCount cats' s.
Proof.
  revert cats'. induction cats as [| c rest IH]; intros [| c' rest'] H;
    try discriminate H; [reflexivity |].
  cbn in H. injection H as Hc Hrest. cbn [validateSelectionCount].
  unfold selectCount. rewrite Hc. destruct (MAX_SELECTION_COUNT <? _); [reflexivity |].
  now apply IH.
Qed.

(** X21: [updateTechStackSelections] never reads the [categoryId] of a
    request group: two requests whose groups list the same techs, in the same
    order, give the same result and the same store. *)
Theorem updateTechStackSelections_ignores_categoryId
        (s : Store) (req : Request) (teamId : Z) (dto dto' : UpdateTechSelectionsDto) :
  map techs (categories dto) = map techs (categories dto') ->
  updateTechStackSelections req teamId dto s
  = updateTechStackSelections req teamId dto' s.
Proof.
  intros H.
  assert (Hbatch : techsArray (categories dto) = techsArray (categories dto')).
  { unfold techsArray. rewrite !flat_map_concat_map. now rewrite H. }
  unfold updateTechStackSelections, bind.
  rewrite (validateSelectionCount_techs_only _ _ s H), Hbatch. reflexivity.
Qed.

Lemma updateTechStackSelections_ignores_categoryId_witness :
  updateTechStackSelections alice 1 three_selected one_vote
  = updateTechStackSelections
      alice 1
      {| categories := [ {| categoryId := 42; techs := [pick 1; pick 2; pick 3] |} ] |}
      one_vote.
Proof.
  apply updateTechStackSelections_ignores_categoryId. reflexivity.
Defined.

(** ** TechsService: the catalog *)

(** X22: [getAllTechItemsByTeamId] never writes and returns for every team
    id; the catalog has one entry per category, in table order, also for
    categories without items; every item it shows is an item of the
    requested team in that category and shows as many votes as the item has;
    and every item of the team whose category exists is shown under it. *)
Theorem getAllTechItemsByTeamId_catalog (teamId : Z) (s : Store) :
  exists catalog,
    getAllTechItemsByTeamId teamId s = (s, Ok catalog)
    /\ map cc_id catalog = map tsc_id (techStackCategory s)
    /\ (forall cc ci,
           In cc catalog -> In ci (teamTechStackItems cc) ->
           exists i, In i (teamTechStackItem s)
                     /\ tti_id i = ci_id ci /\ tti_name i = ci_name ci
                     /\ tti_voyageTeamId i = teamId /\ tti_categoryId i = cc_id cc
                     /\ List.length (teamTechStackItemVotes ci) = voteCount s (ci_id ci))
    /\ (forall c i,
           In c (techStackCategory s) -> In i (teamTechStackItem s) ->
           tti_voyageTeamId i = teamId -> tti_categoryId i = tsc_id c ->
           exists cc ci, In cc catalog /\ cc_id cc = tsc_id c
                         /\ In ci (teamTechStackItems cc) /\ ci_id ci = tti_id i).
Proof.
  exists (map (select_category s teamId) (techStackCategory s)).
  split; [apply getAllTechItemsByTeamId_returns |]. split; [| split].
  - rewrite map_map. reflexivity.
  - intros cc ci Hcc Hci. apply in_map_iff in Hcc. destruct Hcc as (c & <- & Hc).
    cbn in Hci. apply in_map_iff in Hci. destruct Hci as (i & <- & Hi).
    apply filter_In in Hi. destruct Hi as [Hi Hsel].
    apply andb_true_iff in Hsel. destruct Hsel as [Hcat Hteam].
    apply Z.eqb_eq in Hcat, Hteam.
    exists i. cbn. repeat split; try assumption.
    unfold voteCount. now rewrite length_map.
  - intros c i Hc Hi Hteam Hcat.
    exists (select_category s teamId c), (select_item s i).
    split; [now apply in_map |]. split; [reflexivity |]. split; [| reflexivity].
    cbn. apply in_map. apply filter_In. split; [exact Hi |].
    apply andb_true_iff. split; now apply Z.eqb_eq.
Qed.

(** ** TechsService: only the selection update selects *)





